(** * File-integrity reporting tool: checksums and comparison

    A shallow embedding of [streamlit_app1.py]: the SHA-256 digests of
    [compute_checksums], the outer join and classification of
    [compare_checksums], the CSV interchange of [main], and the properties
    the specification states about them. *)

From Stdlib Require Import ZArith List String Ascii Bool Lia.
From Stdlib.Strings Require Import Byte.
From stdpp Require Import base tactics option list sorting gmap.
Import ListNotations.

Local Open Scope string_scope.
Local Open Scope list_scope.

(** ** [hashlib.sha256(data).hexdigest()]

    SHA-256 as in FIPS 180-4, on 32-bit words kept as [Z] with the
    wrap-around written out. *)
Module SHA256.
Local Open Scope Z_scope.

Definition mask32 : Z := 0xFFFFFFFF.
Definition add32 (x y : Z) : Z := (x + y) mod 2 ^ 32.
Definition rotr (n x : Z) : Z :=
  Z.lor (Z.shiftr x n) (Z.land (Z.shiftl x (32 - n)) mask32).
Definition shr (n x : Z) : Z := Z.shiftr x n.
Definition not32 (x : Z) : Z := Z.lxor x mask32.

Definition Ch (x y z : Z) : Z := Z.lxor (Z.land x y) (Z.land (not32 x) z).
Definition Maj (x y z : Z) : Z :=
  Z.lxor (Z.lxor (Z.land x y) (Z.land x z)) (Z.land y z).
Definition Sigma0 (x : Z) : Z := Z.lxor (Z.lxor (rotr 2 x) (rotr 13 x)) (rotr 22 x).
Definition Sigma1 (x : Z) : Z := Z.lxor (Z.lxor (rotr 6 x) (rotr 11 x)) (rotr 25 x).
Definition sigma0 (x : Z) : Z := Z.lxor (Z.lxor (rotr 7 x) (rotr 18 x)) (shr 3 x).
Definition sigma1 (x : Z) : Z := Z.lxor (Z.lxor (rotr 17 x) (rotr 19 x)) (shr 10 x).

(** The constants are the first 32 bits of the fractional parts of the
    cube roots (for [K]) and of the square roots (for [H0]) of the first
    primes. *)
Definition is_prime (n : Z) : bool :=
  (1 <? n) && forallb (fun d => negb (n mod Z.of_nat d =? 0))
                      (seq 2 (Z.to_nat n - 2)).

Definition primes : list Z := List.filter is_prime (map Z.of_nat (seq 2 310)).

(** Integer cube root by bisection: [lo ^ 3 <= n < hi ^ 3] is kept. *)
Fixpoint cbrt_between (steps : nat) (n lo hi : Z) : Z :=
  match steps with
  | O => lo
  | S steps' =>
      let mid := (lo + hi) / 2 in
      if mid ^ 3 <=? n then cbrt_between steps' n mid hi
      else cbrt_between steps' n lo mid
  end.

Definition cbrt (n : Z) : Z := cbrt_between 40 n 0 (2 ^ 36).

Definition K : list Z := map (fun p => cbrt (p * 2 ^ 96) mod 2 ^ 32) primes.

(** The eight working words [a .. h], also the intermediate hash value. *)
Record state := State {
  sa : Z; sb : Z; sc : Z; sd : Z; se : Z; sf : Z; sg : Z; sh : Z }.

Definition H0 : state :=
  match map (fun p => Z.sqrt (p * 2 ^ 64) mod 2 ^ 32) (firstn 8 primes) with
  | [a; b; c; d; e; f; g; h] => State a b c d e f g h
  | _ => State 0 0 0 0 0 0 0 0
  end.

Definition byte_val (b : byte) : Z := Z.of_N (Byte.to_N b).

(** Padding: a 1 bit, zeros up to 56 mod 64 bytes, the bit length on 64 bits. *)
Definition be_bytes (n : nat) (v : Z) : list Z :=
  map (fun i => Z.land (Z.shiftr v (8 * Z.of_nat i)) 0xFF) (rev (seq 0 n)).

Definition pad (msg : list byte) : list Z :=
  let len := Z.of_nat (length msg) in
  let zeros := Z.to_nat ((55 - len) mod 64) in
  map byte_val msg ++ [0x80] ++ repeat 0 zeros ++ be_bytes 8 ((8 * len) mod 2 ^ 64).

Fixpoint be_words (bs : list Z) : list Z :=
  match bs with
  | b0 :: b1 :: b2 :: b3 :: rest =>
      Z.lor (Z.shiftl b0 24) (Z.lor (Z.shiftl b1 16) (Z.lor (Z.shiftl b2 8) b3))
      :: be_words rest
  | _ => []
  end.

Fixpoint blocks16 (fuel : nat) (ws : list Z) : list (list Z) :=
  match fuel, ws with
  | S fuel', _ :: _ => firstn 16 ws :: blocks16 fuel' (skipn 16 ws)
  | _, _ => []
  end.

(** Message schedule: [w] holds W_0 .. W_(t-1); [n] more words are added. *)
Fixpoint schedule (n : nat) (w : list Z) : list Z :=
  match n with
  | O => w
  | S n' =>
      let t := length w in
      let at_ (k : nat) := nth (t - k) w 0 in
      schedule n'
        (w ++ [add32 (add32 (sigma1 (at_ 2%nat)) (at_ 7%nat))
                     (add32 (sigma0 (at_ 15%nat)) (at_ 16%nat))])
  end.

Definition round (s : state) (kw : Z * Z) : state :=
  let '(k, w) := kw in
  let t1 := add32 (add32 (add32 (sh s) (Sigma1 (se s)))
                         (add32 (Ch (se s) (sf s) (sg s)) k)) w in
  let t2 := add32 (Sigma0 (sa s)) (Maj (sa s) (sb s) (sc s)) in
  State (add32 t1 t2) (sa s) (sb s) (sc s) (add32 (sd s) t1) (se s) (sf s) (sg s).

Definition compress (h : state) (block : list Z) : state :=
  let s := fold_left round (combine K (schedule 48 block)) h in
  State (add32 (sa h) (sa s)) (add32 (sb h) (sb s))
        (add32 (sc h) (sc s)) (add32 (sd h) (sd s))
        (add32 (se h) (se s)) (add32 (sf h) (sf s))
        (add32 (sg h) (sg s)) (add32 (sh h) (sh s)).

Definition digest (msg : list byte) : state :=
  let ws := be_words (pad msg) in
  fold_left compress (blocks16 (length ws) ws) H0.

(** Lowercase hexadecimal rendering, most significant nibble first. *)
Definition hex_digits : list ascii :=
  [ "0"; "1"; "2"; "3"; "4"; "5"; "6"; "7";
    "8"; "9"; "a"; "b"; "c"; "d"; "e"; "f" ]%char.

Definition hex_digit (n : Z) : ascii :=
  nth (Z.to_nat (Z.land n 15)) hex_digits "0"%char.

Definition hex_word (w : Z) : list ascii :=
  [ hex_digit (Z.shiftr w 28); hex_digit (Z.shiftr w 24);
    hex_digit (Z.shiftr w 20); hex_digit (Z.shiftr w 16);
    hex_digit (Z.shiftr w 12); hex_digit (Z.shiftr w 8);
    hex_digit (Z.shiftr w 4); hex_digit w ].

Definition hex_state (s : state) : list ascii :=
  hex_word (sa s) ++ hex_word (sb s) ++ hex_word (sc s) ++ hex_word (sd s) ++
  hex_word (se s) ++ hex_word (sf s) ++ hex_word (sg s) ++ hex_word (sh s).

Definition hexdigest (msg : list byte) : string :=
  string_of_list_ascii (hex_state (digest msg)).

End SHA256.

(** ** Exceptions and results

    The Python exceptions the program can meet, and a result type for the
    calls that may raise them. *)
Inductive exn :=
| OSError                      (* [uploaded_file.read()] failed *)
| KeyError (label : string)    (* a column label that a frame does not have *)
| ValueError                   (* merge keys of incompatible dtypes *)
| EmptyDataError               (* [read_csv]: no columns to parse *)
| ParserError.                 (* [read_csv]: the text cannot be tokenized *)

Inductive result (A : Type) :=
| Ok (a : A)
| Raise (e : exn).
Arguments Ok {A} a.
Arguments Raise {A} e.

Global Instance result_ret : MRet result := @Ok.
Global Instance result_bind : MBind result := fun A B f m =>
  match m with
  | Ok a => f a
  | Raise e => Raise e
  end.

(** ** Data frames

    A cell is a text value or the missing value ([NaN], which [pd.isna]
    recognises): names and digests are text, and numeric columns do not
    occur in the frames the program builds from uploaded files.  A frame
    has column labels and rows of cells; its index is never used. *)
Inductive cell :=
| NaN
| Str (s : string).

Global Instance cell_eq_dec : EqDecision cell.
Proof. solve_decision. Defined.

Record DataFrame := mkDataFrame {
  columns : list string;
  rows : list (list cell) }.

Definition col_index (cols : list string) (label : string) : option nat :=
  list_find (fun c => c = label) cols ≫= fun p => Some p.1.

Definition get_loc (df : DataFrame) (label : string) : result nat :=
  match col_index (columns df) label with
  | Some i => Ok i
  | None => Raise (KeyError label)
  end.

Definition cell_at (i : nat) (row : list cell) : cell := default NaN (row !! i).

(** [df[labels]]: the listed columns in the listed order; [KeyError] on a
    label the frame does not have. *)
Fixpoint select_locs (df : DataFrame) (labels : list string) : result (list nat) :=
  match labels with
  | [] => Ok []
  | l :: ls =>
      i ← get_loc df l;
      locs ← select_locs df ls;
      Ok (i :: locs)
  end.

Definition select_columns (df : DataFrame) (labels : list string) : result DataFrame :=
  locs ← select_locs df labels;
  Ok (mkDataFrame labels
        ((fun row : list cell => (fun i => cell_at i row) <$> (locs : list nat))
           <$> rows df)).

(** [df[label] = values]: replaces the column when the label exists,
    appends it otherwise. *)
Definition set_column (df : DataFrame) (label : string) (values : list cell)
  : DataFrame :=
  match col_index (columns df) label with
  | Some i =>
      mkDataFrame (columns df)
        (zip_with (fun row v => <[i := v]> row) (rows df) values)
  | None =>
      mkDataFrame (columns df ++ [label])
        (zip_with (fun row v => row ++ [v]) (rows df) values)
  end.

(** [row.get(label)] on a row of [iterrows()]: [None] for an unknown label. *)
Definition row_get (cols : list string) (row : list cell) (label : string)
  : option cell :=
  i ← col_index cols label; Some (cell_at i row).

(** [pd.isna]: true on [None] and on [NaN]. *)
Definition isna (v : option cell) : bool :=
  match v with
  | None | Some NaN => true
  | Some (Str _) => false
  end.

(** ** [pd.merge(left, right, on=key, how="outer", suffixes=...)]

    The result has the key column, then the other columns of the left and
    of the right frame, a label found on both sides taking the suffix of
    its side.  Its rows are grouped by key, the keys sorted. *)

(** Order of the join keys in the result: text by code point, missing
    keys last. *)
Definition cell_leb (a b : cell) : bool :=
  match a, b with
  | Str s, Str t => String.leb s t
  | _, NaN => true
  | NaN, Str _ => false
  end.
Definition cell_le (a b : cell) : Prop := cell_leb a b = true.
Global Instance cell_le_dec : RelDecision cell_le.
Proof. intros a b. unfold cell_le. apply _. Defined.

(** Key dtypes: [read_csv] gives a column of missing values only the
    dtype [float64], and a column with text is [object].  A merge on a
    [float64] key and a text key is refused with [ValueError]; the check
    is skipped when one side has no row. *)
Inductive dtype := Float64 | Object.
Global Instance dtype_eq_dec : EqDecision dtype.
Proof. solve_decision. Defined.

Definition key_dtype (keys : list cell) : dtype :=
  if forallb (fun k => isna (Some k)) keys then Float64 else Object.

Definition check_merge_keys (lk rk : list cell) : result unit :=
  match lk, rk with
  | [], _ | _, [] => Ok tt
  | _, _ => if decide (key_dtype lk = key_dtype rk) then Ok tt else Raise ValueError
  end.

Definition with_suffix (others : list string) (suffix : string) (c : string) : string :=
  if decide (c ∈ others) then String.append c suffix else c.

(** The rows of the result for one key [k]: the pairs of a left and a
    right row with that key, or the rows of one side completed with
    missing values when the other side has none. *)
Definition join_rows (k : cell) (nl nr : nat) (L R : list (list cell))
  : list (list cell) :=
  match L, R with
  | [], _ => (fun r : list cell => k :: replicate nl NaN ++ r) <$> R
  | _, [] => (fun l : list cell => k :: l ++ replicate nr NaN) <$> L
  | _, _ => l ← L; (fun r : list cell => k :: l ++ r) <$> R
  end.

Definition rows_with_key (i : nat) (k : cell) (rs : list (list cell))
  : list (list cell) :=
  delete i <$> filter (fun row => cell_at i row = k) rs.

Definition pd_merge (left right : DataFrame) (on : string) (suffixes : string * string)
  : result DataFrame :=
  li ← get_loc left on;
  ri ← get_loc right on;
  let lk := cell_at li <$> rows left in
  let rk := cell_at ri <$> rows right in
  _ ← check_merge_keys lk rk;
  let lcols := delete li (columns left) in
  let rcols := delete ri (columns right) in
  let keys := merge_sort cell_le (remove_dups (lk ++ rk)) in
  Ok (mkDataFrame
        (on :: (with_suffix rcols suffixes.1 <$> lcols)
            ++ (with_suffix lcols suffixes.2 <$> rcols))
        (k ← keys;
         join_rows k (length lcols) (length rcols)
           (rows_with_key li k (rows left)) (rows_with_key ri k (rows right)))).

(** ** The program *)

(** An uploaded file: its name and what the one call of [read()] gives,
    the whole content or an exception. *)
Record UploadedFile := mkUploadedFile {
  name : string;
  read : result (list byte) }.

(** One element of [records]: [{"filename": ..., "sha256": ...}]. *)
Record record := mkRecord {
  filename : string;
  sha256 : string }.

(** [pd.DataFrame(records)]: the columns are the keys of the records, so
    an empty list gives a frame without columns. *)
Definition pd_DataFrame (records : list record) : DataFrame :=
  match records with
  | [] => mkDataFrame [] []
  | _ => mkDataFrame ["filename"; "sha256"]
           ((fun r => [Str (filename r); Str (sha256 r)]) <$> records)
  end.

(** The loop of [compute_checksums], with [records] as accumulator. *)
Fixpoint checksum_loop (files : list UploadedFile) (records : list record)
  : result (list record) :=
  match files with
  | [] => Ok records
  | uploaded_file :: files' =>
      data ← read uploaded_file;
      let checksum := SHA256.hexdigest data in
      checksum_loop files' (records ++ [mkRecord (name uploaded_file) checksum])
  end.

Definition compute_checksums (files : list UploadedFile) : result DataFrame :=
  records ← checksum_loop files [];
  Ok (pd_DataFrame records).

(** The body of the loop over [merged.iterrows()]. *)
Definition row_status (cols : list string) (row : list cell) : string :=
  let baseline_hash := row_get cols row "sha256_baseline" in
  let new_hash := row_get cols row "sha256_new" in
  if isna baseline_hash then "new"
  else if isna new_hash then "missing"
  else if decide (baseline_hash = new_hash) then "unchanged"
  else "modified".

Definition compare_checksums (baseline_df new_df : DataFrame) : result DataFrame :=
  merged ← pd_merge baseline_df new_df "filename" ("_baseline", "_new");
  let statuses := row_status (columns merged) <$> rows merged in
  let merged := set_column merged "status" (Str <$> statuses) in
  select_columns merged ["filename"; "sha256_baseline"; "sha256_new"; "status"].

(** ** Frames of this program

    A baseline table read from a report has a name and a possibly missing
    digest per row; a fingerprint set is a table whose digests are all
    present. *)
Definition entry_row (p : string * cell) : list cell := [Str p.1; p.2].

Definition table_of (l : list (string * cell)) : DataFrame :=
  mkDataFrame ["filename"; "sha256"] (entry_row <$> l).

Definition frame_of (l : list (string * string)) : DataFrame :=
  table_of (prod_map id Str <$> l).

(** The digest cell of a name in a fingerprint set, [NaN] when absent. *)
Definition digest_cell (m : gmap string string) (n : string) : cell :=
  from_option Str NaN (m !! n).

Definition report_columns : list string :=
  ["filename"; "sha256_baseline"; "sha256_new"; "status"].

(** ** The CSV interchange: [df.to_csv(index=False)] and [pd.read_csv]

    Text is kept as its UTF-8 bytes, so [.encode("utf-8")] and the
    decoding done by the reader leave it as it is. *)
Module Csv.

Definition comma : ascii := ","%char.
Definition quote : ascii := "034"%char.
Definition LF : ascii := "010"%char.
Definition CR : ascii := "013"%char.
Definition space : ascii := " "%char.
Definition tab : ascii := "009"%char.

(** *** Writing: the [csv] writer with [QUOTE_MINIMAL] (a field with a
    separator, a quote or a line break is quoted, its quotes doubled),
    lines ended by LF, missing values written as the empty field. *)
Definition special (c : ascii) : bool :=
  bool_decide (c ∈ [comma; quote; LF; CR]).

Definition escape (c : ascii) : list ascii :=
  if decide (c = quote) then [quote; quote] else [c].

Definition write_field (s : string) : list ascii :=
  let cs := list_ascii_of_string s in
  if existsb special cs then [quote] ++ (cs ≫= escape) ++ [quote] else cs.

Fixpoint join_fields (fs : list (list ascii)) : list ascii :=
  match fs with
  | [] => []
  | [f] => f
  | f :: fs' => f ++ [comma] ++ join_fields fs'
  end.

(** A record whose only field is empty is written as a quoted empty field. *)
Definition write_row (fs : list string) : list ascii :=
  match join_fields (write_field <$> fs), fs with
  | [], _ :: _ => [quote; quote; LF]
  | line, _ => line ++ [LF]
  end.

Definition cell_text (c : cell) : string :=
  match c with
  | NaN => EmptyString
  | Str s => s
  end.

Definition to_csv (df : DataFrame) : string :=
  string_of_list_ascii
    (write_row (columns df) ++ (row ← rows df; write_row (cell_text <$> row))).

(** *** Reading: the tokenizer of the C parser with the default dialect
    (separator [,], quote character, doubled quotes, blank lines skipped,
    lines ended by LF, CR or CR LF). *)
Inductive tok_state :=
| START_RECORD
| START_FIELD
| IN_FIELD
| IN_QUOTED_FIELD
| QUOTE_IN_QUOTED_FIELD
| EAT_CRNL
| EAT_CRNL_NOP
| WHITESPACE_LINE.

(** The field and the line being read are kept in reverse. *)
Record tokenizer := Tokenizer {
  state : tok_state;
  field : list ascii;
  fields : list string;
  lines : list (list string) }.

Definition push_char (c : ascii) (st : tok_state) (t : tokenizer) : tokenizer :=
  Tokenizer st (c :: field t) (fields t) (lines t).

Definition end_field (st : tok_state) (t : tokenizer) : tokenizer :=
  Tokenizer st [] (string_of_list_ascii (rev (field t)) :: fields t) (lines t).

Definition end_line (st : tok_state) (t : tokenizer) : tokenizer :=
  Tokenizer st [] [] (rev (fields t) :: lines t).

Definition set_state (st : tok_state) (t : tokenizer) : tokenizer :=
  Tokenizer st (field t) (fields t) (lines t).

Definition in_field (c : ascii) (t : tokenizer) : tokenizer :=
  if decide (c = LF) then end_line START_RECORD (end_field START_RECORD t)
  else if decide (c = CR) then end_field EAT_CRNL t
  else if decide (c = comma) then end_field START_FIELD t
  else push_char c IN_FIELD t.

Definition start_field (c : ascii) (t : tokenizer) : tokenizer :=
  if decide (c = quote) then set_state IN_QUOTED_FIELD t else in_field c t.

Definition start_record (c : ascii) (t : tokenizer) : tokenizer :=
  if decide (c = LF) then t
  else if decide (c = CR) then set_state EAT_CRNL_NOP t
  else if decide (c = space ∨ c = tab) then push_char c WHITESPACE_LINE t
  else start_field c t.

Definition tokenize_char (t : tokenizer) (c : ascii) : tokenizer :=
  match state t with
  | START_RECORD => start_record c t
  | START_FIELD => start_field c t
  | IN_FIELD => in_field c t
  | IN_QUOTED_FIELD =>
      if decide (c = quote) then set_state QUOTE_IN_QUOTED_FIELD t
      else push_char c IN_QUOTED_FIELD t
  | QUOTE_IN_QUOTED_FIELD =>
      if decide (c = quote) then push_char c IN_QUOTED_FIELD t else in_field c t
  | EAT_CRNL =>
      if decide (c = LF) then end_line START_RECORD t
      else if decide (c = comma) then end_field START_FIELD (end_line START_FIELD t)
      else start_record c (end_line START_RECORD t)
  | EAT_CRNL_NOP =>
      if decide (c = LF ∨ c = comma) then set_state START_RECORD t
      else start_record c (set_state START_RECORD t)
  | WHITESPACE_LINE =>
      if decide (c = LF) then Tokenizer START_RECORD [] (fields t) (lines t)
      else if decide (c = CR) then Tokenizer EAT_CRNL_NOP [] (fields t) (lines t)
      else if decide (c = space ∨ c = tab) then push_char c WHITESPACE_LINE t
      else in_field c t
  end.

Definition handle_eof (t : tokenizer) : result (list (list string)) :=
  match state t with
  | START_RECORD | WHITESPACE_LINE | EAT_CRNL_NOP => Ok (rev (lines t))
  | IN_QUOTED_FIELD => Raise ParserError
  | IN_FIELD | START_FIELD | QUOTE_IN_QUOTED_FIELD =>
      Ok (rev (lines (end_line START_RECORD (end_field START_RECORD t))))
  | EAT_CRNL => Ok (rev (lines (end_line START_RECORD t)))
  end.

Definition tokenize (text : string) : result (list (list string)) :=
  handle_eof
    (fold_left tokenize_char (list_ascii_of_string text)
       (Tokenizer START_RECORD [] [] [])).

(** The strings read as a missing value ([keep_default_na]). *)
Definition na_values : list string :=
  [ EmptyString; "#N/A"; "#N/A N/A"; "#NA"; "-1.#IND"; "-1.#QNAN"; "-NaN";
    "-nan"; "1.#IND"; "1.#QNAN"; "<NA>"; "N/A"; "NA"; "NULL"; "NaN"; "None";
    "n/a"; "nan"; "null" ].

Definition parse_cell (s : string) : cell :=
  if decide (s ∈ na_values) then NaN else Str s.

(** A data line: more fields than expected is an error, missing trailing
    fields are read as empty. *)
Definition pad_line (expected : nat) (line : list string) : result (list string) :=
  if decide (expected < length line)%nat then Raise ParserError
  else Ok (line ++ replicate (expected - length line) EmptyString).

Fixpoint pad_lines (expected : nat) (ls : list (list string))
  : result (list (list string)) :=
  match ls with
  | [] => Ok []
  | l :: ls' =>
      l' ← pad_line expected l;
      rest ← pad_lines expected ls';
      Ok (l' :: rest)
  end.

(** The first line is the header.  The first data line fixes the width
    of the table: when it has more fields than the header, the leading
    ones form the index and are not columns of the frame.

    Left out: the conversion of a column whose every value is a number
    or a boolean to a numeric dtype (a value that is not missing stays
    text here), and the renaming of empty or repeated header names
    (to [Unnamed: i] and [name.1]), which never gives or takes away the
    labels [filename] and [sha256]. *)
Definition read_table (text : string) : result DataFrame :=
  ls ← tokenize text;
  match ls with
  | [] => Raise EmptyDataError
  | header :: data =>
      let width :=
        match data with
        | [] => length header
        | first :: _ => length first `max` length header
        end in
      padded ← pad_lines width data;
      let leading_cols := (width - length header)%nat in
      Ok (mkDataFrame header
            ((fun line : list string => parse_cell <$> drop leading_cols line)
               <$> padded))
  end.

End Csv.

(** [pd.read_csv(file)]: the file is read, then parsed. *)
Definition read_csv (file : UploadedFile) : result DataFrame :=
  data ← read file;
  Csv.read_table (string_of_list_byte data).

(** ** [main]: the two modes of the application

    The widgets' values are the inputs, the elements shown are the
    result; an exception that [main] does not catch ends the run. *)
Record widgets := mkWidgets {
  mode : string;
  files : list UploadedFile;          (* uploader of "Generate Baseline" *)
  baseline_file : option UploadedFile; (* uploader with key "baseline" *)
  new_files : list UploadedFile }.     (* uploader with key "new_files" *)

Inductive error_message :=
| FailedToReadBaseline (e : exn)  (* "Failed to read baseline CSV: {e}" *)
| BaselineColumnsMissing.         (* "Baseline CSV must contain at least two
                                      columns: 'filename' and 'sha256'" *)

Inductive element :=
| title (body : string)
| write (body : string)
| header (body : string)
| subheader (body : string)
| dataframe (data : DataFrame)
| download_button (label : string) (data : string) (file_name mime : string)
| info (body : string)
| error (body : error_message).

Definition intro : list element :=
  [ title "File‑Integrity Reporting Tool";
    write "Use this app to generate SHA‑256 checksum reports for uploaded files and
compare them against a baseline report to identify changes." ].

Definition generate_baseline (w : widgets) : result (list element) :=
  match files w with
  | _ :: _ =>
      df ← compute_checksums (files w);
      let csv_bytes := Csv.to_csv df in
      Ok [ header "Generate Baseline Checksums";
           subheader "Checksum Report";
           dataframe df;
           download_button "Download CSV Report" csv_bytes
             "baseline_checksums.csv" "text/csv" ]
  | [] =>
      Ok [ header "Generate Baseline Checksums";
           info "Upload files to generate a baseline checksum report." ]
  end.

Definition compare_with_baseline (w : widgets) : result (list element) :=
  match baseline_file w, new_files w with
  | Some baseline, _ :: _ =>
      match read_csv baseline with
      | Raise e =>
          Ok [ header "Compare Current Files With Baseline";
               error (FailedToReadBaseline e) ]
      | Ok baseline_df =>
          if negb (bool_decide (["filename"; "sha256"] ⊆ columns baseline_df)) then
            Ok [ header "Compare Current Files With Baseline";
                 error BaselineColumnsMissing ]
          else
            baseline_df ← select_columns baseline_df ["filename"; "sha256"];
            new_df ← compute_checksums (new_files w);
            comparison_df ← compare_checksums baseline_df new_df;
            let csv_bytes := Csv.to_csv comparison_df in
            Ok [ header "Compare Current Files With Baseline";
                 subheader "Comparison Results";
                 dataframe comparison_df;
                 download_button "Download Comparison Report" csv_bytes
                   "comparison_report.csv" "text/csv" ]
      end
  | _, _ =>
      Ok [ header "Compare Current Files With Baseline";
           info "Upload a baseline checksum CSV and the current files you wish to compare." ]
  end.

Definition main (w : widgets) : result (list element) :=
  body ←
    (if decide (mode w = "Generate Baseline") then generate_baseline w
     else if decide (mode w = "Compare With Baseline") then compare_with_baseline w
     else Ok []);
  Ok (intro ++ body).

(** ** Notions used in the proofs *)

(** The columns of the merged frame, and its rows: for each key, the
    digests of the two tables under that key, joined. *)
Definition merged_columns : list string :=
  ["filename"; "sha256_baseline"; "sha256_new"].

Definition digests (k : cell) (l : list (string * cell)) : list (list cell) :=
  (fun p => [p.2]) <$> filter (fun p => Str p.1 = k) l.

Definition join_keys (A B : list (string * cell)) : list cell :=
  merge_sort cell_le (remove_dups ((Str ∘ fst <$> A) ++ (Str ∘ fst <$> B))).

Definition joined (A B : list (string * cell)) : list (list cell) :=
  k ← join_keys A B; join_rows k 1 1 (digests k A) (digests k B).

(** A merged row with its status appended, and the status as a function
    of the two digest cells. *)
Definition with_status (row : list cell) : list cell :=
  row ++ [Str (row_status merged_columns row)].

Definition status_of (cb cn : cell) : string :=
  if isna (Some cb) then "new"
  else if isna (Some cn) then "missing"
  else if decide (Some cb = Some cn) then "unchanged"
  else "modified".

(** A fingerprint set as a table, and a table without the rows of a name. *)
Definition cells (A : list (string * string)) : list (string * cell) :=
  prod_map id Str <$> A.


(** A file whose content can be read, and the record the Generator makes
    of it. *)
Definition uploaded (entry : string * list byte) : UploadedFile :=
  mkUploadedFile entry.1 (Ok entry.2).

Definition record_of (entry : string * list byte) : record :=
  mkRecord entry.1 (SHA256.hexdigest entry.2).


(** Closed decidable facts, by evaluation. *)
Ltac by_evaluation := apply (bool_decide_unpack _); vm_compute; exact I.

(** ** Notions used in the further properties *)

(** Reading a report that was written.  [run] is the tokenizer over a
    piece of text; a [plain] piece needs no quoting; a tokenizer that
    [awaits] a delimiter has a complete field in its buffer.  A cell is
    [reparse]d when it is written and read again. *)
Module CsvText.
Import Csv.

Definition run (t : tokenizer) (cs : list ascii) : tokenizer :=
  fold_left tokenize_char cs t.

Definition plain (cs : list ascii) : Prop := existsb special cs = false.

Definition awaits (t : tokenizer) : Prop :=
  state t = START_FIELD ∨ state t = IN_FIELD ∨ state t = QUOTE_IN_QUOTED_FIELD.

Definition reparse (c : cell) : cell := parse_cell (cell_text c).

(** A text that [read_csv] gives back as it was written: it is not one
    of the missing-value markers, it has no carriage return (which the
    [csv] writer of older Python versions leaves unquoted), and it has a
    letter with which no number and no boolean is written, so that its
    column is left as text. *)
Definition text_char (c : ascii) : bool :=
  bool_decide (c ∈ list_ascii_of_string "bcdghjkmopqvwxzBCDGHJKMOPQVWXZ").

Definition has_text (s : string) : bool :=
  existsb text_char (list_ascii_of_string s).

Definition ordinary (s : string) : bool :=
  negb (bool_decide (s ∈ na_values))
  && negb (bool_decide (CR ∈ list_ascii_of_string s))
  && has_text s.

End CsvText.

(** The downloaded baseline report, uploaded again. *)
Definition baseline_upload (csv_bytes : string) : UploadedFile :=
  mkUploadedFile "baseline_checksums.csv" (Ok (list_byte_of_string csv_bytes)).



Definition comparison_elements (comparison_df : DataFrame) : list element :=
  [ header "Compare Current Files With Baseline";
    subheader "Comparison Results";
    dataframe comparison_df;
    download_button "Download Comparison Report" (Csv.to_csv comparison_df)
      "comparison_report.csv" "text/csv" ].

(** A file that can be read, and the row the Generator makes of a file. *)
Definition readable (f : UploadedFile) : Prop := ∃ data, read f = Ok data.

Definition checksum_row (f : UploadedFile) (row : list cell) : Prop :=
  ∃ data, read f = Ok data ∧ row = [Str (name f); Str (SHA256.hexdigest data)].

(** The status of a record when baseline and current set change places. *)
Definition swap_status (status : string) : string :=
  if decide (status = "new") then "missing"
  else if decide (status = "missing") then "new"
  else status.

(** The number of rows of a name in a frame, and the number of records
    of a name that has [a] baseline rows and [b] current rows. *)
Definition occurrences (n : string) (l : list (string * string)) : nat :=
  length (filter (fun p => p.1 = n) l).

Definition records_for (a b : nat) : nat :=
  match a, b with
  | O, _ => b
  | _, O => a
  | _, _ => a * b
  end.

(** * Properties *)

Global Instance Str_inj : Inj (=) (=) Str.
Proof. by intros ?? [= ->]. Qed.

(** ** The comparison of two tables, as an outer join *)
Section merge_facts.

Lemma rows_with_key_table k (l : list (string * cell)) :
  rows_with_key 0 k (entry_row <$> l) = digests k l.
Proof.
  unfold rows_with_key, digests.
  induction l as [|[n d] l IH]; [done|].
  rewrite fmap_cons, !filter_cons.
  change (cell_at 0 (entry_row (n, d))) with (Str n). simpl.
  case_decide; simpl; [f_equal|]; exact IH.
Qed.

Lemma key_column_table (l : list (string * cell)) :
  cell_at 0 <$> (entry_row <$> l) = (Str ∘ fst <$> l).
Proof. rewrite <-list_fmap_compose. apply list_fmap_ext. by intros ? []. Qed.

Lemma check_merge_keys_text (A B : list (string * cell)) :
  check_merge_keys (Str ∘ fst <$> A) (Str ∘ fst <$> B) = Ok tt.
Proof. destruct A as [|[??] ?], B as [|[??] ?]; reflexivity. Qed.

Lemma get_loc_table l : get_loc (table_of l) "filename" = Ok 0%nat.
Proof. reflexivity. Qed.

Lemma pd_merge_table A B :
  pd_merge (table_of A) (table_of B) "filename" ("_baseline", "_new")
  = Ok (mkDataFrame merged_columns
          (k ← join_keys A B; join_rows k 1 1 (digests k A) (digests k B))).
Proof.
  unfold pd_merge. rewrite !get_loc_table.
  cbn [mbind result_bind table_of rows columns].
  rewrite !key_column_table, check_merge_keys_text.
  cbn [mbind result_bind]. f_equal. f_equal.
  unfold join_keys. apply list_bind_ext; [|done]. intros k.
  by rewrite !rows_with_key_table.
Qed.

Lemma with_status_eq k cb cn :
  with_status [k; cb; cn] = [k; cb; cn; Str (status_of cb cn)].
Proof. reflexivity. Qed.

Lemma digests_length k l row : row ∈ digests k l → ∃ d, row = [d].
Proof.
  unfold digests. intros ((n & d) & -> & _)%list_elem_of_fmap. by exists d.
Qed.

Lemma join_rows_shape k L R row :
  (∀ r, r ∈ L → ∃ d, r = [d]) → (∀ r, r ∈ R → ∃ d, r = [d]) →
  row ∈ join_rows k 1 1 L R →
  ∃ cb cn, row = [k; cb; cn]
    ∧ (L = [] ∧ cb = NaN ∨ [cb] ∈ L) ∧ (R = [] ∧ cn = NaN ∨ [cn] ∈ R).
Proof.
  intros HL HR. unfold join_rows.
  destruct L as [|l L].
  - intros (r & -> & Hr)%list_elem_of_fmap.
    destruct (HR _ Hr) as [d ->]. exists NaN, d. naive_solver.
  - destruct R as [|r R].
    + intros (l' & -> & Hl)%list_elem_of_fmap.
      destruct (HL _ Hl) as [d ->]. exists d, NaN. naive_solver.
    + intros (l' & (r' & -> & Hr)%list_elem_of_fmap & Hl)%list_elem_of_bind.
      destruct (HL _ Hl) as [d ->], (HR _ Hr) as [d' ->].
      exists d, d'. naive_solver.
Qed.

Lemma join_rows_intro k L R cb cn :
  (L = [] ∧ cb = NaN ∨ [cb] ∈ L) → (R = [] ∧ cn = NaN ∨ [cn] ∈ R) →
  ¬ (L = [] ∧ R = []) →
  [k; cb; cn] ∈ join_rows k 1 1 L R.
Proof.
  unfold join_rows. intros HL HR Hne.
  destruct L as [|l L].
  - destruct HL as [[_ ->]|HL]; [|by apply elem_of_nil in HL].
    destruct HR as [[-> _]|HR]; [naive_solver|].
    apply list_elem_of_fmap. by exists [cn].
  - destruct HL as [[? _]|HL]; [done|].
    destruct R as [|r R].
    + destruct HR as [[_ ->]|HR]; [|by apply elem_of_nil in HR].
      apply list_elem_of_fmap. by exists [cb].
    + destruct HR as [[? _]|HR]; [done|].
      apply list_elem_of_bind. exists [cb]. split; [|done].
      apply list_elem_of_fmap. by exists [cn].
Qed.

Lemma joined_shape A B row : row ∈ joined A B → ∃ k cb cn, row = [k; cb; cn].
Proof.
  intros (k & Hrow & _)%list_elem_of_bind.
  apply join_rows_shape in Hrow as (cb & cn & -> & _); eauto using digests_length.
Qed.

Lemma compare_checksums_table A B :
  compare_checksums (table_of A) (table_of B)
  = Ok (mkDataFrame report_columns (with_status <$> joined A B)).
Proof.
  unfold compare_checksums. rewrite pd_merge_table. fold (joined A B).
  cbn [mbind result_bind columns rows].
  unfold set_column. cbn [columns rows].
  change (col_index merged_columns "status") with (@None nat).
  unfold select_columns.
  change (select_locs _ _) with (Ok [0; 1; 2; 3]%nat).
  cbn [mbind result_bind rows]. f_equal. f_equal.
  rewrite <-!list_fmap_compose, zip_with_fmap_r, zip_with_diag.
  rewrite <-list_fmap_compose.
  apply list_fmap_ext. intros _ row Hrow%list_elem_of_lookup_2.
  by apply joined_shape in Hrow as (k & cb & cn & ->).
Qed.

Lemma elem_of_join_keys A B k :
  k ∈ join_keys A B ↔ ∃ n, k = Str n ∧ (n ∈ A.*1 ∨ n ∈ B.*1).
Proof.
  unfold join_keys. rewrite merge_sort_Permutation, elem_of_remove_dups, elem_of_app.
  rewrite !list_elem_of_fmap. split.
  - intros [([n d] & -> & ?)|([n d] & -> & ?)]; exists n; split; try done;
      [left|right]; apply list_elem_of_fmap; by exists (n, d).
  - intros (n & -> & [([n' d] & -> & ?)%list_elem_of_fmap
                     |([n' d] & -> & ?)%list_elem_of_fmap]);
      [left|right]; by exists (n', d).
Qed.

Lemma elem_of_digests n l d : [d] ∈ digests (Str n) l ↔ (n, d) ∈ l.
Proof.
  unfold digests. rewrite list_elem_of_fmap. split.
  - intros ([n' d'] & [= ->] & [[= ->] ?]%list_elem_of_filter). done.
  - intros ?. exists (n, d). split; [done|]. by apply list_elem_of_filter.
Qed.

Lemma digests_nil n l : digests (Str n) l = [] ↔ n ∉ l.*1.
Proof.
  unfold digests. split.
  - intros Hnil%fmap_nil_inv ([n' d] & -> & Hin)%list_elem_of_fmap.
    refine (filter_nil_not_elem_of _ l (n', d) Hnil _ Hin). done.
  - intros Hn.
    destruct (filter _ l) as [|[n' d] ?] eqn:E; [done|]. exfalso.
    assert ((n', d) ∈ filter (λ p : string * cell, Str p.1 = Str n) l) as Hf
      by (rewrite E; left).
    apply list_elem_of_filter in Hf as [[= ->] Hin].
    apply Hn, list_elem_of_fmap. by exists (n, d).
Qed.

(** The report is the full outer join of the two tables on the name. *)
Lemma elem_of_joined A B row :
  row ∈ joined A B ↔
  ∃ n cb cn, row = [Str n; cb; cn]
    ∧ ((n ∉ A.*1) ∧ cb = NaN ∨ (n, cb) ∈ A)
    ∧ ((n ∉ B.*1) ∧ cn = NaN ∨ (n, cn) ∈ B)
    ∧ (n ∈ A.*1 ∨ n ∈ B.*1).
Proof.
  unfold joined. rewrite list_elem_of_bind. split.
  - intros (k & Hrow & (n & -> & Hn)%elem_of_join_keys).
    apply join_rows_shape in Hrow as (cb & cn & -> & HA & HB);
      eauto using digests_length.
    exists n, cb, cn. rewrite digests_nil, elem_of_digests in HA, HB. done.
  - intros (n & cb & cn & -> & HA & HB & Hn).
    exists (Str n). split; [|apply elem_of_join_keys; eauto].
    apply join_rows_intro; rewrite ?digests_nil, ?elem_of_digests; try done.
    intros [??]. destruct Hn; done.
Qed.

Lemma elem_of_fst {A B} (l : list (A * B)) a : a ∈ l.*1 ↔ ∃ b, (a, b) ∈ l.
Proof.
  rewrite list_elem_of_fmap. split.
  - intros ([a' b] & -> & ?). by exists b.
  - intros [b ?]. by exists (a, b).
Qed.

End merge_facts.

Section fingerprint_sets.
Implicit Types A B : list (string * string).

Lemma cells_fst A : (cells A).*1 = A.*1.
Proof.
  unfold cells. rewrite <-list_fmap_compose. apply list_fmap_ext. by intros ? [].
Qed.

Lemma elem_of_cells A n c : (n, c) ∈ cells A ↔ ∃ d, c = Str d ∧ (n, d) ∈ A.
Proof.
  unfold cells. rewrite list_elem_of_fmap. split.
  - intros ([n' d] & [= -> ->] & ?). by exists d.
  - intros (d & -> & ?). by exists (n, d).
Qed.

Lemma digest_cell_absent A n :
  n ∉ A.*1 → digest_cell (list_to_map A) n = NaN.
Proof.
  intros Hn. unfold digest_cell.
  by rewrite (proj1 (not_elem_of_list_to_map (M:=gmap string) A n) Hn).
Qed.

Lemma digest_cell_present A n d :
  NoDup A.*1 → (n, d) ∈ A → digest_cell (list_to_map A) n = Str d.
Proof.
  intros Hnd Hin. unfold digest_cell.
  by rewrite (elem_of_list_to_map_1 (M:=gmap string) A n d Hnd Hin).
Qed.

Lemma joined_digest_cell A n c :
  NoDup A.*1 →
  (n ∉ (cells A).*1) ∧ c = NaN ∨ (n, c) ∈ cells A →
  c = digest_cell (list_to_map A) n.
Proof.
  intros Hnd [[Hn ->]|(d & -> & Hin)%elem_of_cells].
  - rewrite cells_fst in Hn. by rewrite digest_cell_absent.
  - by rewrite (digest_cell_present _ _ d).
Qed.

Lemma digest_cell_joined A n :
  NoDup A.*1 →
  (n ∉ (cells A).*1) ∧ digest_cell (list_to_map A) n = NaN
  ∨ (n, digest_cell (list_to_map A) n) ∈ cells A.
Proof.
  intros HA. rewrite cells_fst.
  destruct (decide (n ∈ A.*1)) as [[d Hd]%elem_of_fst|Hn].
  - right. apply elem_of_cells. exists d. split; [|done].
    by apply digest_cell_present.
  - left. split; [done|]. by apply digest_cell_absent.
Qed.

Lemma status_of_rules (x y : option string) :
  ¬ (x = None ∧ y = None) →
  let status := status_of (from_option Str NaN x) (from_option Str NaN y) in
  (status = "unchanged" ↔ ∃ d, x = Some d ∧ y = Some d)
  ∧ (status = "modified" ↔ ∃ d1 d2, x = Some d1 ∧ y = Some d2 ∧ d1 ≠ d2)
  ∧ (status = "new" ↔ x = None)
  ∧ (status = "missing" ↔ y = None).
Proof.
  intros Hxy. destruct x as [d1|], y as [d2|]; unfold status_of; simpl.
  - destruct (decide (Some (Str d1) = Some (Str d2))) as [[= ->]|Hne].
    + split_and!; split; try done; [by exists d2|].
      by intros (? & ? & [= ->] & [= ->] & ?).
    + split_and!; split; try done.
      * by intros (? & [= ->] & [= ->]).
      * intros _. exists d1, d2. split_and!; [done..|]. by intros ->.
  - split_and!; split; try done; [by intros (? & _ & ?)|by intros (? & ? & _ & ? & _)].
  - split_and!; split; try done; [by intros (? & ? & _)|by intros (? & ? & ? & _)].
  - by destruct Hxy.
Qed.

End fingerprint_sets.

Section one_record_per_name.

Lemma digests_unique k (l : list (string * cell)) :
  NoDup l.*1 → digests k l = [] ∨ ∃ d, digests k l = [[d]].
Proof.
  unfold digests. induction l as [|[n d] l IH]; [by left|].
  rewrite fmap_cons, NoDup_cons. intros [Hn Hnd]. rewrite filter_cons.
  destruct (decide (Str (n, d).1 = k)) as [<-|]; [|by apply IH].
  right. exists d. fold (digests (Str n) l).
  rewrite fmap_cons. f_equal. by apply digests_nil.
Qed.

Lemma join_rows_one k (A B : list (string * cell)) :
  NoDup A.*1 → NoDup B.*1 → k ∈ join_keys A B →
  ∃ cb cn, join_rows k 1 1 (digests k A) (digests k B) = [[k; cb; cn]].
Proof.
  intros HA HB (n & -> & Hn)%elem_of_join_keys.
  destruct (digests_unique (Str n) A HA) as [EA|[da EA]],
           (digests_unique (Str n) B HB) as [EB|[db EB]];
    rewrite EA, EB; [|by eexists _, _..].
  apply digests_nil in EA, EB. destruct Hn; done.
Qed.

Lemma report_names (A B : list (string * cell)) :
  NoDup A.*1 → NoDup B.*1 →
  cell_at 0 <$> (with_status <$> joined A B) = join_keys A B.
Proof.
  intros HA HB. unfold joined.
  assert (∀ ks, ks ⊆ join_keys A B →
    cell_at 0 <$> (with_status <$>
      (k ← ks; join_rows k 1 1 (digests k A) (digests k B))) = ks) as Hks.
  { induction ks as [|k ks IH]; [done|]. intros Hsub.
    destruct (join_rows_one k A B HA HB) as (cb & cn & Hk).
    { apply Hsub. left. }
    csimpl. rewrite Hk. cbn [app fmap list_fmap]. simpl. f_equal.
    apply IH. intros k' ?. apply Hsub. by right. }
  by apply Hks.
Qed.

End one_record_per_name.

(** ** Two fingerprint sets

    The baseline and the current set are mappings from names to digests;
    the frames that hold them list their entries, each name once, in any
    order. *)
Section two_fingerprint_sets.

Context (A B : list (string * string)).
Hypothesis baseline_names : NoDup A.*1.
Hypothesis current_names : NoDup B.*1.

Local Abbreviation baseline := (list_to_map A : gmap string string).
Local Abbreviation current := (list_to_map B : gmap string string).

Lemma elem_of_key_union n : n ∈ dom baseline ∪ dom current ↔ n ∈ A.*1 ∨ n ∈ B.*1.
Proof.
  by rewrite elem_of_union, !dom_list_to_map_L, !elem_of_list_to_set.
Qed.

Lemma join_keys_union :
  join_keys (cells A) (cells B) ≡ₚ Str <$> elements (dom baseline ∪ dom current).
Proof using Type.
  apply NoDup_Permutation.
  - unfold join_keys. rewrite merge_sort_Permutation. apply NoDup_remove_dups.
  - apply (NoDup_fmap_2 _), NoDup_elements.
  - intros k. rewrite elem_of_join_keys, !cells_fst, list_elem_of_fmap.
    setoid_rewrite elem_of_elements. by setoid_rewrite elem_of_key_union.
Qed.

(** C1. For two fingerprint sets, every name of the union of their keys
    has a comparison record; a record for that name carries the two
    digests of the name, and its status is "unchanged" iff both digests
    are present and equal, "modified" iff both are present and differ,
    "new" iff the baseline digest is absent, "missing" iff the current
    digest is absent. *)
Theorem compare_checksums_status :
  ∃ out,
    compare_checksums (frame_of A) (frame_of B) = Ok out
    ∧ columns out = ["filename"; "sha256_baseline"; "sha256_new"; "status"]
    ∧ ∀ n, n ∈ dom baseline ∪ dom current →
        (∃ row, row ∈ rows out ∧ cell_at 0 row = Str n)
        ∧ ∀ row, row ∈ rows out → cell_at 0 row = Str n →
            ∃ status,
              row = [Str n; digest_cell baseline n; digest_cell current n; Str status]
              ∧ (status = "unchanged" ↔
                   ∃ d, baseline !! n = Some d ∧ current !! n = Some d)
              ∧ (status = "modified" ↔
                   ∃ d1 d2, baseline !! n = Some d1 ∧ current !! n = Some d2 ∧ d1 ≠ d2)
              ∧ (status = "new" ↔ baseline !! n = None)
              ∧ (status = "missing" ↔ current !! n = None).
Proof.
  unfold frame_of. fold (cells A) (cells B).
  rewrite compare_checksums_table. eexists. split; [done|]. split; [done|].
  cbn [rows]. intros n Hn%elem_of_key_union. split.
  - exists (with_status [Str n; digest_cell baseline n; digest_cell current n]).
    split; [|done]. apply list_elem_of_fmap_2, elem_of_joined.
    exists n, (digest_cell baseline n), (digest_cell current n).
    split_and!; [done|by apply digest_cell_joined..|by rewrite !cells_fst].
  - intros row (row0 & -> & Hrow)%list_elem_of_fmap Hname.
    apply elem_of_joined in Hrow as (n' & cb & cn & -> & HcA & HcB & _).
    injection Hname as ->.
    apply joined_digest_cell in HcA as ->; [|done].
    apply joined_digest_cell in HcB as ->; [|done].
    rewrite with_status_eq. eexists. split; [done|].
    apply status_of_rules. intros [Hb Hc].
    apply not_elem_of_list_to_map in Hb, Hc. destruct Hn; done.
Qed.

(** C2. For two fingerprint sets, the names of the comparison records
    are exactly the names of the union of the two key sets, each once:
    no name is dropped, none occurs in two records, and there are as
    many records as names in the union. *)
Theorem compare_checksums_one_record_per_name :
  ∃ out,
    compare_checksums (frame_of A) (frame_of B) = Ok out
    ∧ cell_at 0 <$> rows out ≡ₚ Str <$> elements (dom baseline ∪ dom current)
    ∧ NoDup (cell_at 0 <$> rows out)
    ∧ length (rows out) = size (dom baseline ∪ dom current).
Proof.
  unfold frame_of. fold (cells A) (cells B).
  rewrite compare_checksums_table. eexists. split; [done|]. cbn [rows].
  assert (cell_at 0 <$> (with_status <$> joined (cells A) (cells B))
          ≡ₚ Str <$> elements (dom baseline ∪ dom current)) as Hperm.
  { rewrite report_names by by rewrite cells_fst. apply join_keys_union. }
  split_and!; [done| |].
  - rewrite Hperm. apply (NoDup_fmap_2 _), NoDup_elements.
  - apply Permutation_length in Hperm. rewrite !length_fmap in Hperm.
    rewrite length_fmap. exact Hperm.
Qed.

End two_fingerprint_sets.

(** C8. Comparing a fingerprint set with itself gives, for every name of
    the set, the record of that name with status "unchanged", and gives
    no other record: none has status "new" or "missing". *)
Theorem compare_checksums_self (A : list (string * string)) :
  NoDup A.*1 →
  let set : gmap string string := list_to_map A in
  ∃ out,
    compare_checksums (frame_of A) (frame_of A) = Ok out
    ∧ (∀ n d, set !! n = Some d →
         [Str n; Str d; Str d; Str "unchanged"] ∈ rows out)
    ∧ (∀ row, row ∈ rows out →
         (∃ n d, set !! n = Some d ∧ row = [Str n; Str d; Str d; Str "unchanged"])
         ∧ cell_at 3 row ≠ Str "new" ∧ cell_at 3 row ≠ Str "missing").
Proof.
  intros HA set. unfold frame_of. fold (cells A).
  rewrite compare_checksums_table. eexists. split; [done|]. cbn [rows]. split.
  - intros n d Hd%elem_of_list_to_map; [|done].
    apply list_elem_of_fmap. exists [Str n; Str d; Str d]. split.
    { rewrite with_status_eq. unfold status_of. simpl. by rewrite decide_True. }
    apply elem_of_joined. exists n, (Str d), (Str d).
    assert ((n, Str d) ∈ cells A) by (apply elem_of_cells; eauto).
    split_and!; [done|by right..|].
    left. rewrite cells_fst. apply elem_of_fst. eauto.
  - intros row (row0 & -> & Hrow)%list_elem_of_fmap.
    apply elem_of_joined in Hrow as (n & cb & cn & -> & HcA & HcB & Hn).
    apply joined_digest_cell in HcA as ->; [|done].
    apply joined_digest_cell in HcB as ->; [|done].
    rewrite cells_fst in Hn.
    assert (∃ d, (n, d) ∈ A) as [d Hd] by (apply elem_of_fst; tauto).
    rewrite (digest_cell_present A n d) by done.
    rewrite with_status_eq. unfold status_of. simpl. rewrite decide_True by done.
    split; [|done]. exists n, d. split; [|done]. by apply elem_of_list_to_map.
Qed.

Section null_baseline_digest.




End null_baseline_digest.


Section generator.

Lemma checksum_loop_uploaded entries records :
  checksum_loop (uploaded <$> entries) records
  = Ok (records ++ (record_of <$> entries)).
Proof.
  revert records. induction entries as [|e entries IH]; intros records.
  - by rewrite app_nil_r.
  - cbn. rewrite IH. by rewrite <-app_assoc.
Qed.

Lemma checksum_loop_raise entries file rest records e :
  read file = Raise e →
  checksum_loop ((uploaded <$> entries) ++ file :: rest) records = Raise e.
Proof.
  intros He. revert records. induction entries as [|? entries IH]; intros records.
  - cbn. by rewrite He.
  - cbn. apply IH.
Qed.

Lemma compute_checksums_uploaded entries :
  compute_checksums (uploaded <$> entries) = Ok (pd_DataFrame (record_of <$> entries)).
Proof. unfold compute_checksums. by rewrite checksum_loop_uploaded. Qed.




End generator.


(** The constants, as FIPS 180-4 lists them. *)
Lemma constants_check :
  length SHA256.K = 64%nat
  ∧ firstn 2 SHA256.K = [0x428a2f98; 0x71374491]%Z
  ∧ last SHA256.K = Some 0xc67178f2%Z
  ∧ SHA256.sa SHA256.H0 = 0x6a09e667%Z
  ∧ SHA256.sh SHA256.H0 = 0x5be0cd19%Z.
Proof. vm_compute. done. Qed.

(** The digests of two more test vectors: "abc", and a message of 56
    bytes, whose padding takes a second block. *)
Lemma hexdigest_abc :
  SHA256.hexdigest [x61; x62; x63]%byte
  = "ba7816bf8f01cfea414140de5dae2223b00361a396177a9cb410ff61f20015ad".
Proof. vm_compute. reflexivity. Qed.

Lemma hexdigest_two_blocks :
  SHA256.hexdigest (replicate 56 x61%byte)
  = "b35439a4ac6f0948b6d6f9e3c6af0f5f590ce20f1bde7090ef7970686ec6738a".
Proof. vm_compute. reflexivity. Qed.

(** C3, as stated, fails: two files of the same name leave two entries
    of that name, the first with the digest of the first content. *)
Lemma compute_checksums_keeps_duplicates :
  let files := [ mkUploadedFile "a.txt" (Ok [x61]%byte);
                 mkUploadedFile "a.txt" (Ok [x62]%byte) ] in
  ∃ df,
    compute_checksums files = Ok df
    ∧ rows df =
        [ [Str "a.txt";
           Str "ca978112ca1bbdcafac231b39a23dc4da786eff8147c4e72b9807785afee48bb"];
          [Str "a.txt";
           Str "3e23e8160039594a33894f6564e1b1348bbd7a0088d42c4acb73eeaed59c009d"] ]
    ∧ length (filter (fun row => cell_at 0 row = Str "a.txt") (rows df)) = 2%nat.
Proof. eexists. split_and!; vm_compute; reflexivity. Qed.

(** C3, amended. The Generator keeps one row per input pair, in the
    order of the input, each with the digest of its own content: pairs
    of the same name are all kept, none overwrites another and none is
    an error. *)
Theorem compute_checksums_rows (entries : list (string * list byte)) :
  ∃ df,
    compute_checksums (uploaded <$> entries) = Ok df
    ∧ rows df = (fun e => [Str e.1; Str (SHA256.hexdigest e.2)]) <$> entries
    ∧ length (rows df) = length entries.
Proof.
  rewrite compute_checksums_uploaded. eexists. split; [done|].
  assert (rows (pd_DataFrame (record_of <$> entries))
          = (fun e => [Str e.1; Str (SHA256.hexdigest e.2)]) <$> entries) as ->.
  { destruct entries as [|e entries]; [done|].
    unfold pd_DataFrame. rewrite fmap_cons. cbn [rows].
    rewrite <-fmap_cons, <-list_fmap_compose. done. }
  by rewrite length_fmap.
Qed.

(** C6, as stated, fails: a file that cannot be read makes the whole
    call raise; no frame with the other entries is returned. *)
Lemma compute_checksums_read_failure_aborts :
  let files := [ mkUploadedFile "a.txt" (Ok []);
                 mkUploadedFile "b.txt" (Raise OSError);
                 mkUploadedFile "c.txt" (Ok []) ] in
  compute_checksums files = Raise OSError
  ∧ ¬ ∃ df, compute_checksums files = Ok df.
Proof. split; [reflexivity|]. by intros [df Hdf]. Qed.

(** C6, amended. When reading an entry fails after the entries before it
    were read, the exception of that read leaves the Generator: no frame
    is returned, whatever the remaining entries are. *)
Theorem compute_checksums_read_failure
    (entries : list (string * list byte)) (name : string) (e : exn)
    (rest : list UploadedFile) :
  compute_checksums ((uploaded <$> entries) ++ mkUploadedFile name (Raise e) :: rest)
  = Raise e.
Proof. unfold compute_checksums. by rewrite (checksum_loop_raise _ _ _ _ e). Qed.



Section application.

Lemma columns_check (cols : list string) :
  bool_decide (["filename"; "sha256"] ⊆ cols)
  = bool_decide ("filename" ∈ cols ∧ "sha256" ∈ cols).
Proof.
  apply bool_decide_ext. split.
  - intros Hsub. split; apply Hsub; set_solver.
  - intros [??] c [->|[->|[]%elem_of_nil]%elem_of_cons]%elem_of_cons; done.
Qed.

End application.

(** C5. When the baseline report is read as a table that lacks the
    "filename" or the "sha256" column, the comparison ends with the
    message that the baseline must contain both columns: the current
    files are not read, nothing is joined, and no comparison table or
    download is produced. *)
Theorem main_rejects_malformed_baseline
    (fs : list UploadedFile) (baseline : UploadedFile) (baseline_df : DataFrame)
    (new_file : UploadedFile) (others : list UploadedFile) :
  read_csv baseline = Ok baseline_df →
  ¬ ("filename" ∈ columns baseline_df ∧ "sha256" ∈ columns baseline_df) →
  main (mkWidgets "Compare With Baseline" fs (Some baseline) (new_file :: others))
  = Ok (intro ++
        [ header "Compare Current Files With Baseline";
          error BaselineColumnsMissing ]).
Proof.
  intros Hread Hcols. unfold main. cbn [mode]. rewrite decide_False by done.
  rewrite decide_True by done.
  unfold compare_with_baseline. cbn [baseline_file new_files].
  rewrite Hread, columns_check, bool_decide_false by done. reflexivity.
Qed.

(** The scenario of the specification: the baseline report has no digest
    column, and the current file cannot even be read. *)
Lemma main_rejects_malformed_baseline_witness :
  let baseline :=
    mkUploadedFile "baseline.csv" (Ok (list_byte_of_string "filename
a.txt
")) in
  read_csv baseline = Ok (mkDataFrame ["filename"] [[Str "a.txt"]])
  ∧ main (mkWidgets "Compare With Baseline" [] (Some baseline)
            [mkUploadedFile "a.txt" (Raise OSError)])
    = Ok (intro ++
          [ header "Compare Current Files With Baseline";
            error BaselineColumnsMissing ]).
Proof.
  split; [vm_compute; reflexivity|].
  apply (main_rejects_malformed_baseline _ _
           (mkDataFrame ["filename"] [[Str "a.txt"]])).
  - vm_compute; reflexivity.
  - by_evaluation.
Defined.

(** C9 at the failing input: the baseline report of a file named "NA"
    does not read back as the frame it was written from; the name comes
    back as a missing value. *)
Lemma baseline_csv_round_trip_fails :
  let digest := "e3b0c44298fc1c149afbf4c8996fb92427ae41e4649b934ca495991b7852b855" in
  ∃ df csv_bytes df',
    compute_checksums [mkUploadedFile "NA" (Ok [])] = Ok df
    ∧ df = mkDataFrame ["filename"; "sha256"] [[Str "NA"; Str digest]]
    ∧ csv_bytes = Csv.to_csv df
    ∧ read_csv (mkUploadedFile "baseline_checksums.csv"
                  (Ok (list_byte_of_string csv_bytes))) = Ok df'
    ∧ df' = mkDataFrame ["filename"; "sha256"] [[NaN; Str digest]]
    ∧ df' ≠ df.
Proof.
  eexists _, _, _. split_and!; try (vm_compute; reflexivity). done.
Qed.

(** A report without such names reads back as it was written, names with
    a comma or a quote included. *)
Lemma baseline_csv_round_trip_example :
  let files :=
    [ mkUploadedFile "a.txt" (Ok []);
      mkUploadedFile "b,1.txt" (Ok [x61]%byte);
      mkUploadedFile (String Csv.quote "c.txt") (Ok [x62]%byte) ] in
  ∃ df,
    compute_checksums files = Ok df
    ∧ read_csv (mkUploadedFile "baseline_checksums.csv"
                  (Ok (list_byte_of_string (Csv.to_csv df)))) = Ok df.
Proof. eexists. split; vm_compute; reflexivity. Qed.

(** The scenarios of the specification, as instances of the theorems. *)
Lemma compare_checksums_status_witness :
  let A := [("a.txt", "d1"); ("b.txt", "d2")] in
  let B := [("a.txt", "d1"); ("b.txt", "d3"); ("c.txt", "d4")] in
  NoDup A.*1 ∧ NoDup B.*1
  ∧ ∃ out,
      compare_checksums (frame_of A) (frame_of B) = Ok out
      ∧ rows out =
          [ [Str "a.txt"; Str "d1"; Str "d1"; Str "unchanged"];
            [Str "b.txt"; Str "d2"; Str "d3"; Str "modified"];
            [Str "c.txt"; NaN; Str "d4"; Str "new"] ].
Proof.
  intros A B.
  assert (NoDup A.*1) as HA by by_evaluation.
  assert (NoDup B.*1) as HB by by_evaluation.
  split; [exact HA|]. split; [exact HB|].
  destruct (compare_checksums_status A B HA HB) as (out & Hout & _).
  exists out. split; [exact Hout|].
  vm_compute in Hout. injection Hout as <-. reflexivity.
Defined.

Lemma compare_checksums_one_record_per_name_witness :
  let A := [("a.txt", "d1"); ("b.txt", "d2")] in
  let B := [("a.txt", "d1"); ("b.txt", "d3"); ("c.txt", "d4")] in
  NoDup A.*1 ∧ NoDup B.*1
  ∧ ∃ out,
      compare_checksums (frame_of A) (frame_of B) = Ok out
      ∧ cell_at 0 <$> rows out = [Str "a.txt"; Str "b.txt"; Str "c.txt"]
      ∧ length (rows out)
        = size (dom (list_to_map A : gmap string string)
                ∪ dom (list_to_map B : gmap string string)).
Proof.
  intros A B.
  assert (NoDup A.*1) as HA by by_evaluation.
  assert (NoDup B.*1) as HB by by_evaluation.
  split; [exact HA|]. split; [exact HB|].
  destruct (compare_checksums_one_record_per_name A B HA HB)
    as (out & Hout & _ & _ & Hlen).
  exists out. split; [exact Hout|]. split; [|exact Hlen].
  vm_compute in Hout. injection Hout as <-. reflexivity.
Defined.

Lemma compare_checksums_self_witness :
  let A := [("a.txt", "d1"); ("b.txt", "d2")] in
  NoDup A.*1
  ∧ ∃ out,
      compare_checksums (frame_of A) (frame_of A) = Ok out
      ∧ rows out =
          [ [Str "a.txt"; Str "d1"; Str "d1"; Str "unchanged"];
            [Str "b.txt"; Str "d2"; Str "d2"; Str "unchanged"] ].
Proof.
  intros A.
  assert (NoDup A.*1) as HA by by_evaluation.
  split; [exact HA|].
  destruct (compare_checksums_self A HA) as (out & Hout & _).
  exists out. split; [exact Hout|].
  vm_compute in Hout. injection Hout as <-. reflexivity.
Defined.


(** Outside fingerprint sets: a name that occurs twice in the current
    frame gets two records. *)
Lemma compare_checksums_repeated_name :
  compare_checksums (frame_of [("a.txt", "d1")])
                    (frame_of [("a.txt", "d1"); ("a.txt", "d2")])
  = Ok (mkDataFrame ["filename"; "sha256_baseline"; "sha256_new"; "status"]
          [ [Str "a.txt"; Str "d1"; Str "d1"; Str "unchanged"];
            [Str "a.txt"; Str "d1"; Str "d2"; Str "modified"] ]).
Proof. vm_compute. reflexivity. Qed.

(** * Further properties *)

(** ** The Generator and the Reconciler *)

Section generator_outcome.

Lemma checksum_loop_ok files records rs :
  checksum_loop files records = Ok rs →
  ∃ new, rs = records ++ new
    ∧ Forall2 (fun f r => ∃ data, read f = Ok data
                 ∧ r = mkRecord (name f) (SHA256.hexdigest data)) files new.
Proof.
  revert records. induction files as [|f files IH]; intros records; cbn.
  - intros [= <-]. exists []. by rewrite app_nil_r.
  - destruct (read f) as [data|e] eqn:Hread; cbn; [|done].
    intros (new & -> & Hnew)%IH. eexists (_ :: new).
    rewrite <-app_assoc. split; [done|]. constructor; [|done]. eauto.
Qed.

Lemma checksum_loop_readable files records :
  Forall readable files → ∃ rs, checksum_loop files records = Ok rs.
Proof.
  intros Hfiles. revert records.
  induction Hfiles as [|f files [data Hread] _ IH]; intros records; cbn; [eauto|].
  rewrite Hread. cbn. apply IH.
Qed.

End generator_outcome.

(** X1. [compute_checksums] returns a frame exactly when every one of
    the files can be read. *)
Theorem compute_checksums_succeeds_iff (files : list UploadedFile) :
  (∃ df, compute_checksums files = Ok df) ↔ Forall readable files.
Proof.
  unfold compute_checksums. split.
  - intros [df Hdf]. destruct (checksum_loop files []) as [rs|e] eqn:Hloop; [|done].
    apply checksum_loop_ok in Hloop as (new & _ & Hnew).
    clear -Hnew. induction Hnew as [|f r files new (data & ? & _) _ IH];
      constructor; [by exists data|done].
  - intros Hfiles. destruct (checksum_loop_readable files [] Hfiles) as [rs ->].
    cbn. eauto.
Qed.

(** X2. When [compute_checksums] returns a frame for at least one
    file, the frame has the columns of the docstring and one row per
    file, in the order of the files: the name of the file and the digest
    of what was read from it. *)
Theorem compute_checksums_frame (files : list UploadedFile) (df : DataFrame) :
  compute_checksums files = Ok df → files ≠ [] →
  columns df = ["filename"; "sha256"]
  ∧ Forall2 checksum_row files (rows df).
Proof.
  unfold compute_checksums. intros Hdf Hne.
  destruct (checksum_loop files []) as [rs|e] eqn:Hloop; [|done].
  cbn in Hdf. injection Hdf as <-.
  apply checksum_loop_ok in Hloop as (new & -> & Hnew). rewrite app_nil_l.
  destruct Hnew as [|f r files new Hr Hnew]; [done|].
  split; [done|]. unfold pd_DataFrame. cbn [rows].
  apply Forall2_fmap_r. constructor.
  - destruct Hr as (data & ? & ->). by exists data.
  - eapply Forall2_impl; [exact Hnew|]. intros f' r' (data & ? & ->). by exists data.
Qed.

Lemma compute_checksums_frame_witness :
  let files := [mkUploadedFile "a.txt" (Ok []); mkUploadedFile "a.txt" (Ok [x61]%byte)] in
  ∃ df, compute_checksums files = Ok df ∧ files ≠ []
    ∧ columns df = ["filename"; "sha256"] ∧ length (rows df) = 2%nat.
Proof.
  intros files. eexists. split; [reflexivity|]. split; [done|].
  destruct (compute_checksums_frame files _ eq_refl) as [Hc Hr]; [done|].
  split; [exact Hc|]. reflexivity.
Defined.

Section missing_key.

Lemma col_index_None cols label : col_index cols label = None ↔ label ∉ cols.
Proof.
  unfold col_index. destruct (list_find _ cols) as [[i c]|] eqn:Hfind; cbn.
  - split; [done|]. intros Hn. apply list_find_Some in Hfind as (Hi & -> & _).
    by apply list_elem_of_lookup_2 in Hi.
  - split; [|done]. intros _ Hin. apply list_find_None in Hfind.
    by eapply Forall_forall in Hfind.
Qed.

Lemma get_loc_missing df label :
  label ∉ columns df → get_loc df label = Raise (KeyError label).
Proof. intros Hn. unfold get_loc. by rewrite (proj2 (col_index_None _ _) Hn). Qed.

Lemma get_loc_present df label :
  label ∈ columns df → ∃ i, get_loc df label = Ok i ∧ columns df !! i = Some label.
Proof.
  intros Hin. unfold get_loc, col_index.
  destruct (list_find _ (columns df)) as [[i c]|] eqn:Hfind; cbn.
  - apply list_find_Some in Hfind as (Hi & -> & _). eauto.
  - apply list_find_None in Hfind. by eapply Forall_forall in Hfind.
Qed.

End missing_key.

(** X3. [compare_checksums] raises [KeyError] for "filename" as soon
    as one of the two frames has no column of that label. *)
Theorem compare_checksums_missing_key (baseline_df new_df : DataFrame) :
  "filename" ∉ columns baseline_df ∨ "filename" ∉ columns new_df →
  compare_checksums baseline_df new_df = Raise (KeyError "filename").
Proof.
  intros Hmissing. unfold compare_checksums, pd_merge.
  destruct (decide ("filename" ∈ columns baseline_df)) as [Hin|Hn].
  - destruct Hmissing as [?|Hnew]; [done|].
    destruct (get_loc_present _ _ Hin) as (i & -> & _). cbn [mbind result_bind].
    rewrite (get_loc_missing new_df) by done. reflexivity.
  - rewrite (get_loc_missing baseline_df) by done. reflexivity.
Qed.

Lemma compare_checksums_missing_key_witness :
  ("filename" ∉ columns (mkDataFrame ["name"; "sha256"] [[Str "a.txt"; Str "d1"]]))
  ∧ compare_checksums (mkDataFrame ["name"; "sha256"] [[Str "a.txt"; Str "d1"]])
                      (frame_of [("a.txt", "d1")])
    = Raise (KeyError "filename").
Proof.
  assert ("filename" ∉ columns (mkDataFrame ["name"; "sha256"] [[Str "a.txt"; Str "d1"]]))
    as Hn by by_evaluation.
  split; [exact Hn|].
  apply compare_checksums_missing_key. left. exact Hn.
Defined.

Section report_rows.

Lemma elem_of_report (A B : list (string * cell)) n cb cn status :
  [Str n; cb; cn; Str status] ∈ with_status <$> joined A B
  ↔ [Str n; cb; cn] ∈ joined A B ∧ status = status_of cb cn.
Proof.
  rewrite list_elem_of_fmap. split.
  - intros (row & Heq & Hrow).
    destruct (joined_shape _ _ _ Hrow) as (k & cb' & cn' & ->).
    rewrite with_status_eq in Heq. by simplify_eq.
  - intros [Hrow ->]. by exists [Str n; cb; cn].
Qed.

Lemma report_row_shape (A B : list (string * cell)) row :
  row ∈ with_status <$> joined A B →
  ∃ n cb cn, row = [Str n; cb; cn; Str (status_of cb cn)]
    ∧ [Str n; cb; cn] ∈ joined A B.
Proof.
  intros (row0 & -> & Hrow)%list_elem_of_fmap.
  pose proof Hrow as (n & cb & cn & -> & _)%elem_of_joined.
  exists n, cb, cn. by rewrite with_status_eq.
Qed.

Lemma joined_swap (A B : list (string * cell)) n cb cn :
  [Str n; cb; cn] ∈ joined A B ↔ [Str n; cn; cb] ∈ joined B A.
Proof.
  rewrite !elem_of_joined. split.
  - intros (n' & cb' & cn' & [= -> -> ->] & HA & HB & Hn).
    exists n', cn', cb'. tauto.
  - intros (n' & cb' & cn' & [= -> -> ->] & HA & HB & Hn).
    exists n', cn', cb'. tauto.
Qed.

Lemma swap_status_involutive status : swap_status (swap_status status) = status.
Proof.
  unfold swap_status. repeat case_decide; by simplify_eq.
Qed.

Lemma status_of_swap (cb cn : cell) :
  ¬ (cb = NaN ∧ cn = NaN) → status_of cn cb = swap_status (status_of cb cn).
Proof.
  intros Hne. destruct cb as [|b], cn as [|c]; [tauto|done..|].
  unfold status_of. simpl.
  destruct (decide (Some (Str b) = Some (Str c))) as [[= ->]|Hbc].
  - by rewrite decide_True.
  - rewrite decide_False; [done|]. by intros [= ->].
Qed.

End report_rows.

(** X4. Comparing in the other direction gives the same records with
    the two digests exchanged: "new" and "missing" change places,
    "unchanged" and "modified" stay. *)
Theorem compare_checksums_swap (A B : list (string * string)) :
  ∃ ab ba,
    compare_checksums (frame_of A) (frame_of B) = Ok ab
    ∧ compare_checksums (frame_of B) (frame_of A) = Ok ba
    ∧ ∀ n cb cn status,
        [Str n; cb; cn; Str status] ∈ rows ab
        ↔ [Str n; cn; cb; Str (swap_status status)] ∈ rows ba.
Proof.
  unfold frame_of. fold (cells A) (cells B). rewrite !compare_checksums_table.
  eexists _, _. split; [done|]. split; [done|]. cbn [rows].
  intros n cb cn status. rewrite !elem_of_report, joined_swap.
  assert ([Str n; cn; cb] ∈ joined (cells B) (cells A) → ¬ (cb = NaN ∧ cn = NaN))
    as Hpresent.
  { intros (n' & c1 & c2 & [= -> -> ->] & HB & HA & Hn)%elem_of_joined [-> ->].
    rewrite !cells_fst in *.
    destruct HA as [[? _]|(? & ? & _)%elem_of_cells]; [|done].
    destruct HB as [[? _]|(? & ? & _)%elem_of_cells]; [|done]. tauto. }
  split; intros [Hrow Hst]; (split; [done|]).
  - rewrite status_of_swap by auto. by rewrite Hst.
  - rewrite status_of_swap in Hst by auto.
    by rewrite <-(swap_status_involutive status), Hst, swap_status_involutive.
Qed.

(** X5. For tables whose digest cells may be missing, the status of a
    record is fixed by its two digest cells, the tests being made in
    this order: "new" when the baseline digest is absent (also when both
    are), "missing" when only the current digest is absent, "unchanged"
    when both are present and equal, "modified" when they differ. *)
Theorem compare_checksums_status_of_cells (base cur : list (string * cell)) :
  ∃ out,
    compare_checksums (table_of base) (table_of cur) = Ok out
    ∧ ∀ row, row ∈ rows out →
        ∃ n cb cn status,
          row = [Str n; cb; cn; Str status]
          ∧ (status = "new" ↔ cb = NaN)
          ∧ (status = "missing" ↔ cb ≠ NaN ∧ cn = NaN)
          ∧ (status = "unchanged" ↔ cb ≠ NaN ∧ cn ≠ NaN ∧ cb = cn)
          ∧ (status = "modified" ↔ cb ≠ NaN ∧ cn ≠ NaN ∧ cb ≠ cn).
Proof.
  rewrite compare_checksums_table. eexists. split; [done|]. cbn [rows].
  intros row (n & cb & cn & -> & _)%report_row_shape.
  exists n, cb, cn, (status_of cb cn). split; [done|].
  unfold status_of. destruct cb as [|b], cn as [|c]; simpl.
  - split_and!; split; try done; tauto.
  - split_and!; split; try done; tauto.
  - split_and!; split; try done; tauto.
  - destruct (decide (Some (Str b) = Some (Str c))) as [[= ->]|Hbc].
    + split_and!; split; try done; tauto.
    + split_and!; split; try done; try tauto.
      * by intros [_ ?].
      * intros (_ & _ & [= ->]). done.
      * intros _. split_and!; try done. by intros [= ->].
Qed.

Section repeated_names.

Lemma filter_all {A} (P : A → Prop) `{∀ x, Decision (P x)} (l : list A) :
  Forall P l → filter P l = l.
Proof.
  induction 1 as [|x l Hx _ IH]; [done|]. by rewrite filter_cons_True, IH.
Qed.

Lemma filter_none {A} (P : A → Prop) `{∀ x, Decision (P x)} (l : list A) :
  Forall (fun x => ¬ P x) l → filter P l = [].
Proof.
  induction 1 as [|x l Hx _ IH]; [done|]. by rewrite filter_cons_False.
Qed.

Lemma length_digests n (A : list (string * string)) :
  length (digests (Str n) (cells A)) = occurrences n A.
Proof.
  unfold digests, occurrences, cells. rewrite length_fmap.
  induction A as [|[m d] A IH]; [done|].
  rewrite fmap_cons, !filter_cons. cbn [prod_map fst snd id].
  destruct (decide (Str m = Str n)) as [[= ->]|Hne].
  - rewrite decide_True by done. simpl. by rewrite IH.
  - rewrite decide_False by (by intros ->). done.
Qed.

Lemma length_product {A B C} (f : A → B → C) (L : list A) (R : list B) :
  length (l ← L; f l <$> R) = length L * length R.
Proof.
  induction L as [|l L IH]; [done|].
  by rewrite bind_cons, length_app, length_fmap, IH.
Qed.

Lemma length_join_rows k (L R : list (list cell)) :
  length (join_rows k 1 1 L R) = records_for (length L) (length R).
Proof.
  unfold join_rows, records_for. destruct L as [|l L].
  - by rewrite length_fmap.
  - destruct R as [|r R]; [by rewrite length_fmap|].
    by rewrite (length_product (fun l r => k :: l ++ r)).
Qed.

Lemma report_rows_of_key (A B : list (string * cell)) k row :
  row ∈ with_status <$> join_rows k 1 1 (digests k A) (digests k B) →
  cell_at 0 row = k.
Proof.
  intros (row0 & -> & Hrow)%list_elem_of_fmap.
  apply join_rows_shape in Hrow as (cb & cn & -> & _); eauto using digests_length.
Qed.

Lemma filter_report_rows (A B : list (string * cell)) n ks :
  NoDup ks →
  filter (fun row => cell_at 0 row = Str n)
    (with_status <$> (k ← ks; join_rows k 1 1 (digests k A) (digests k B)))
  = if decide (Str n ∈ ks)
    then with_status <$> join_rows (Str n) 1 1 (digests (Str n) A) (digests (Str n) B)
    else [].
Proof.
  induction 1 as [|k ks Hk Hks IH]; [done|].
  rewrite bind_cons, fmap_app, filter_app, IH.
  destruct (decide (k = Str n)) as [->|Hne].
  - rewrite (decide_True (P:=Str n ∈ Str n :: ks)) by left.
    rewrite (decide_False (P:=Str n ∈ ks)) by done.
    rewrite app_nil_r. apply filter_all, Forall_forall.
    intros row. apply report_rows_of_key.
  - rewrite filter_none.
    2:{ apply Forall_forall. intros row Hrow%report_rows_of_key. congruence. }
    simpl. destruct (decide (Str n ∈ ks)).
    + by rewrite decide_True by by right.
    + rewrite decide_False; [done|]. by intros [?|?]%elem_of_cons.
Qed.

Lemma NoDup_join_keys (A B : list (string * cell)) : NoDup (join_keys A B).
Proof.
  unfold join_keys. rewrite merge_sort_Permutation. apply NoDup_remove_dups.
Qed.

End repeated_names.

(** X6. A name that has [a] rows in the baseline frame and [b] rows in
    the current frame gets [a * b] records, one per pair of rows, and
    [a + b] records when one of the two is zero. *)
Theorem compare_checksums_records_per_name (A B : list (string * string)) :
  ∃ out,
    compare_checksums (frame_of A) (frame_of B) = Ok out
    ∧ ∀ n,
        length (filter (fun row => cell_at 0 row = Str n) (rows out))
        = records_for (occurrences n A) (occurrences n B).
Proof.
  unfold frame_of. fold (cells A) (cells B). rewrite compare_checksums_table.
  eexists. split; [done|]. cbn [rows]. intros n. unfold joined.
  rewrite filter_report_rows by apply NoDup_join_keys.
  destruct (decide (Str n ∈ join_keys (cells A) (cells B))) as [Hin|Hn].
  - by rewrite length_fmap, length_join_rows, !length_digests.
  - rewrite <-!length_digests.
    assert (digests (Str n) (cells A) = [] ∧ digests (Str n) (cells B) = [])
      as [-> ->]; [|done].
    rewrite !digests_nil. split; intros ?; apply Hn, elem_of_join_keys; eauto.
Qed.

(** X8. When the baseline report cannot be read or parsed, the
    comparison ends with the message that reading the baseline failed,
    which carries the exception; the current files are not read. *)
Theorem main_reports_unreadable_baseline
    (fs : list UploadedFile) (baseline : UploadedFile) (e : exn)
    (new_file : UploadedFile) (others : list UploadedFile) :
  read_csv baseline = Raise e →
  main (mkWidgets "Compare With Baseline" fs (Some baseline) (new_file :: others))
  = Ok (intro ++
        [ header "Compare Current Files With Baseline";
          error (FailedToReadBaseline e) ]).
Proof.
  intros Hread. unfold main. cbn [mode]. rewrite decide_False by done.
  rewrite decide_True by done.
  unfold compare_with_baseline. cbn [baseline_file new_files].
  by rewrite Hread.
Qed.

Lemma main_reports_unreadable_baseline_witness :
  let baseline := mkUploadedFile "baseline.csv" (Ok []) in
  read_csv baseline = Raise EmptyDataError
  ∧ main (mkWidgets "Compare With Baseline" [] (Some baseline)
            [mkUploadedFile "a.txt" (Raise OSError)])
    = Ok (intro ++
          [ header "Compare Current Files With Baseline";
            error (FailedToReadBaseline EmptyDataError) ]).
Proof.
  split; [reflexivity|].
  apply (main_reports_unreadable_baseline _ _ EmptyDataError). reflexivity.
Defined.

Section projection.

Lemma select_two_columns df :
  "filename" ∈ columns df → "sha256" ∈ columns df →
  ∃ i j,
    columns df !! i = Some "filename" ∧ columns df !! j = Some "sha256"
    ∧ select_columns df ["filename"; "sha256"]
      = Ok (mkDataFrame ["filename"; "sha256"]
              ((fun row => [cell_at i row; cell_at j row]) <$> rows df)).
Proof.
  intros (i & Hi & Hci)%get_loc_present (j & Hj & Hcj)%get_loc_present.
  exists i, j. split; [done|]. split; [done|].
  unfold select_columns. cbn [select_locs]. rewrite Hi, Hj. reflexivity.
Qed.

End projection.

(** X9. When the baseline table has the columns "filename" and
    "sha256", wherever they stand and whatever other columns there are,
    the comparison is the one of these two columns with the checksums of
    the current files. *)
Theorem main_compares_named_columns
    (fs : list UploadedFile) (baseline : UploadedFile) (baseline_df : DataFrame)
    (new_file : UploadedFile) (others : list UploadedFile) :
  read_csv baseline = Ok baseline_df →
  "filename" ∈ columns baseline_df → "sha256" ∈ columns baseline_df →
  ∃ i j,
    columns baseline_df !! i = Some "filename"
    ∧ columns baseline_df !! j = Some "sha256"
    ∧ main (mkWidgets "Compare With Baseline" fs (Some baseline) (new_file :: others))
      = (new_df ← compute_checksums (new_file :: others);
         comparison_df ←
           compare_checksums
             (mkDataFrame ["filename"; "sha256"]
                ((fun row => [cell_at i row; cell_at j row]) <$> rows baseline_df))
             new_df;
         Ok (intro ++ comparison_elements comparison_df)).
Proof.
  intros Hread Hf Hs.
  destruct (select_two_columns baseline_df Hf Hs) as (i & j & Hi & Hj & Hsel).
  exists i, j. split; [done|]. split; [done|].
  unfold main. cbn [mode]. rewrite decide_False by done.
  rewrite decide_True by done.
  unfold compare_with_baseline. cbn [baseline_file new_files].
  rewrite Hread, columns_check, bool_decide_true by done. cbn [negb].
  rewrite Hsel. cbn [mbind result_bind].
  destruct (compute_checksums (new_file :: others)) as [new_df|?]; [|done].
  cbn [mbind result_bind].
  by destruct (compare_checksums _ new_df).
Qed.

Lemma main_compares_named_columns_witness :
  let baseline :=
    mkUploadedFile "baseline.csv" (Ok (list_byte_of_string "sha256,size,filename
d1,12,a.txt
d2,7,b.txt
")) in
  let new_files := [mkUploadedFile "a.txt" (Ok [])] in
  ∃ baseline_df out,
    read_csv baseline = Ok baseline_df
    ∧ columns baseline_df = ["sha256"; "size"; "filename"]
    ∧ main (mkWidgets "Compare With Baseline" [] (Some baseline) new_files)
      = Ok (intro ++ comparison_elements out)
    ∧ rows out =
        [ [Str "a.txt"; Str "d1";
           Str "e3b0c44298fc1c149afbf4c8996fb92427ae41e4649b934ca495991b7852b855";
           Str "modified"];
          [Str "b.txt"; Str "d2"; NaN; Str "missing"] ].
Proof.
  intros baseline new_files.
  assert (∃ df, read_csv baseline = Ok df
                ∧ columns df = ["sha256"; "size"; "filename"]) as (df & Hdf & Hcols)
    by (eexists; split; vm_compute; reflexivity).
  destruct (main_compares_named_columns [] baseline df
              (mkUploadedFile "a.txt" (Ok [])) [] Hdf)
    as (i & j & Hi & Hj & Hmain).
  { rewrite Hcols. by_evaluation. }
  { rewrite Hcols. by_evaluation. }
  exists df,
    (mkDataFrame ["filename"; "sha256_baseline"; "sha256_new"; "status"]
       [ [Str "a.txt"; Str "d1";
          Str "e3b0c44298fc1c149afbf4c8996fb92427ae41e4649b934ca495991b7852b855";
          Str "modified"];
         [Str "b.txt"; Str "d2"; NaN; Str "missing"] ]).
  split; [exact Hdf|]. split; [exact Hcols|].
  split; vm_compute; reflexivity.
Defined.

Section row_order.

Lemma joined_Permutation (A A' B B' : list (string * cell)) row :
  A ≡ₚ A' → B ≡ₚ B' → row ∈ joined A B ↔ row ∈ joined A' B'.
Proof.
  intros HA HB. rewrite !elem_of_joined.
  by setoid_rewrite HA; setoid_rewrite HB.
Qed.

Lemma NoDup_report (A B : list (string * cell)) :
  NoDup A.*1 → NoDup B.*1 → NoDup (with_status <$> joined A B).
Proof.
  intros HA HB. apply (NoDup_fmap_1 (cell_at 0)).
  rewrite report_names by done. apply NoDup_join_keys.
Qed.

End row_order.

(** X7. For fingerprint sets, the order of the rows of the two frames
    changes at most the order of the records. *)
Theorem compare_checksums_row_order (A A' B B' : list (string * string)) :
  A ≡ₚ A' → B ≡ₚ B' → NoDup A.*1 → NoDup B.*1 →
  ∃ out out',
    compare_checksums (frame_of A) (frame_of B) = Ok out
    ∧ compare_checksums (frame_of A') (frame_of B') = Ok out'
    ∧ rows out ≡ₚ rows out'.
Proof.
  intros HA HB HndA HndB. unfold frame_of.
  fold (cells A) (cells B) (cells A') (cells B').
  rewrite !compare_checksums_table. eexists _, _. split; [done|]. split; [done|].
  cbn [rows].
  assert (cells A ≡ₚ cells A') as HcA by (unfold cells; by rewrite HA).
  assert (cells B ≡ₚ cells B') as HcB by (unfold cells; by rewrite HB).
  apply NoDup_Permutation.
  - apply NoDup_report; by rewrite cells_fst.
  - apply NoDup_report; rewrite cells_fst; [by rewrite <-HA|by rewrite <-HB].
  - intros row. rewrite !list_elem_of_fmap.
    by setoid_rewrite (joined_Permutation _ _ _ _ _ HcA HcB).
Qed.

Lemma compare_checksums_row_order_witness :
  let A := [("a.txt", "d1"); ("b.txt", "d2")] in
  let A' := [("b.txt", "d2"); ("a.txt", "d1")] in
  let B := [("c.txt", "d4"); ("a.txt", "d1")] in
  A ≡ₚ A' ∧ NoDup A.*1 ∧ NoDup B.*1
  ∧ ∃ out out',
      compare_checksums (frame_of A) (frame_of B) = Ok out
      ∧ compare_checksums (frame_of A') (frame_of B) = Ok out'
      ∧ rows out ≡ₚ rows out'.
Proof.
  intros A A' B.
  assert (A ≡ₚ A') as HA by apply Permutation_swap.
  assert (NoDup A.*1) as HndA by by_evaluation.
  assert (NoDup B.*1) as HndB by by_evaluation.
  split; [exact HA|]. split; [exact HndA|]. split; [exact HndB|].
  exact (compare_checksums_row_order A A' B B HA (reflexivity B) HndA HndB).
Defined.

(** ** The baseline report, written and read *)

Module CsvFacts.
Import Csv CsvText.

Lemma plain_cons c cs :
  plain (c :: cs) ↔ (c ≠ comma ∧ c ≠ quote ∧ c ≠ LF ∧ c ≠ CR) ∧ plain cs.
Proof.
  unfold plain. simpl. rewrite orb_false_iff. unfold special at 1.
  rewrite bool_decide_eq_false, !elem_of_cons, elem_of_nil. tauto.
Qed.

Lemma run_cons t c cs : run t (c :: cs) = run (tokenize_char t c) cs.
Proof. reflexivity. Qed.

Lemma run_app t cs1 cs2 : run t (cs1 ++ cs2) = run (run t cs1) cs2.
Proof. apply fold_left_app. Qed.

Lemma run_in_field cs f fs ls :
  plain cs →
  run (Tokenizer IN_FIELD f fs ls) cs = Tokenizer IN_FIELD (rev cs ++ f) fs ls.
Proof.
  revert f. induction cs as [|c cs IH]; intros f; [done|].
  intros [(Hc & Hq & Hl & Hr) Hcs]%plain_cons. rewrite run_cons.
  unfold tokenize_char. cbn [state]. unfold in_field.
  rewrite !decide_False by done. unfold push_char. cbn [field fields lines].
  rewrite IH by done. simpl. by rewrite <-app_assoc.
Qed.

Lemma run_quoted cs f fs ls :
  run (Tokenizer IN_QUOTED_FIELD f fs ls) (cs ≫= escape)
  = Tokenizer IN_QUOTED_FIELD (rev cs ++ f) fs ls.
Proof.
  revert f. induction cs as [|c cs IH]; intros f; [done|].
  rewrite bind_cons, run_app. unfold escape at 1.
  destruct (decide (c = quote)) as [->|Hq].
  - rewrite !run_cons. change (run ?t []) with t.
    unfold tokenize_char at 2. cbn [state].
    rewrite decide_True by done. unfold set_state. cbn [field fields lines].
    unfold tokenize_char. cbn [state].
    rewrite decide_True by done. unfold push_char. cbn [field fields lines].
    rewrite IH. simpl. by rewrite <-app_assoc.
  - rewrite !run_cons. change (run ?t []) with t.
    unfold tokenize_char. cbn [state].
    rewrite decide_False by done. unfold push_char. cbn [field fields lines].
    rewrite IH. simpl. by rewrite <-app_assoc.
Qed.

Lemma run_whitespace_line cs f fs ls :
  plain cs →
  ∃ st, (st = WHITESPACE_LINE ∨ st = IN_FIELD)
    ∧ run (Tokenizer WHITESPACE_LINE f fs ls) cs = Tokenizer st (rev cs ++ f) fs ls.
Proof.
  revert f. induction cs as [|c cs IH]; intros f; [by eexists; eauto|].
  intros [(Hc & Hq & Hl & Hr) Hcs]%plain_cons. rewrite run_cons.
  unfold tokenize_char. cbn [state]. rewrite !(decide_False (P:=c = LF)) by done.
  rewrite !(decide_False (P:=c = CR)) by done.
  destruct (decide (c = space ∨ c = tab)).
  - unfold push_char. cbn [field fields lines].
    destruct (IH (c :: f) Hcs) as (st & Hst & ->). exists st. split; [done|].
    simpl. by rewrite <-app_assoc.
  - unfold in_field. rewrite !decide_False by done.
    unfold push_char. cbn [field fields lines]. rewrite run_in_field by done.
    exists IN_FIELD. split; [by right|]. simpl. by rewrite <-app_assoc.
Qed.

Lemma comma_after t :
  awaits t ∨ state t = WHITESPACE_LINE ∨ state t = START_RECORD →
  tokenize_char t comma = end_field START_FIELD t.
Proof.
  unfold awaits, tokenize_char. intros [[->| [->| ->]]|[->| ->]]; reflexivity.
Qed.

Lemma LF_after t :
  awaits t → tokenize_char t LF = end_line START_RECORD (end_field START_RECORD t).
Proof.
  unfold awaits, tokenize_char. intros [->| [->| ->]]; reflexivity.
Qed.

Lemma write_field_cases s :
  let cs := list_ascii_of_string s in
  plain cs ∧ write_field s = cs
  ∨ write_field s = [quote] ++ (cs ≫= escape) ++ [quote].
Proof.
  unfold write_field, plain. cbv zeta.
  destruct (existsb special (list_ascii_of_string s)); [by right|by left].
Qed.

(** Reading a written field, from the start of a field or of a record:
    the text of the field is in the buffer and a delimiter is awaited. *)
Lemma run_write_field s st fs ls :
  st = START_FIELD ∨ st = START_RECORD →
  ∃ st',
    run (Tokenizer st [] fs ls) (write_field s)
    = Tokenizer st' (rev (list_ascii_of_string s)) fs ls
    ∧ (st' = START_FIELD ∨ st' = IN_FIELD ∨ st' = QUOTE_IN_QUOTED_FIELD
       ∨ st = START_RECORD ∧ (st' = WHITESPACE_LINE ∨ st' = START_RECORD)).
Proof.
  intros Hst. destruct (write_field_cases s) as [[Hplain ->]| ->].
  - destruct (list_ascii_of_string s) as [|c cs]; [exists st; split; [done|]; tauto|].
    apply plain_cons in Hplain as [(Hc & Hq & Hl & Hr) Hcs]. rewrite run_cons.
    assert (tokenize_char (Tokenizer START_FIELD [] fs ls) c
            = Tokenizer IN_FIELD [c] fs ls) as Hsf.
    { unfold tokenize_char, start_field, in_field. cbn [state].
      by rewrite !decide_False by done. }
    destruct Hst as [-> | ->].
    + rewrite Hsf, run_in_field by done. exists IN_FIELD. split; [|tauto].
      reflexivity.
    + unfold tokenize_char, start_record. cbn [state].
      rewrite !(decide_False (P:=c = LF)), !(decide_False (P:=c = CR)) by done.
      destruct (decide (c = space ∨ c = tab)).
      * unfold push_char. cbn [field fields lines].
        destruct (run_whitespace_line cs [c] fs ls Hcs) as (st' & Hst' & ->).
        exists st'. split; [reflexivity|]. destruct Hst'; tauto.
      * fold (tokenize_char (Tokenizer START_FIELD [] fs ls) c).
        unfold tokenize_char in Hsf. cbn [state] in Hsf.
        unfold start_field at 1. unfold start_field in Hsf.
        rewrite decide_False in * by done. unfold in_field in *.
        rewrite !decide_False in * by done. unfold push_char. cbn [field fields lines].
        rewrite run_in_field by done. exists IN_FIELD. split; [|tauto].
        reflexivity.
  - rewrite run_app.
    change (run (Tokenizer st [] fs ls) [quote])
      with (tokenize_char (Tokenizer st [] fs ls) quote).
    assert (tokenize_char (Tokenizer st [] fs ls) quote
            = Tokenizer IN_QUOTED_FIELD [] fs ls) as ->
      by (destruct Hst as [-> | ->]; reflexivity).
    rewrite run_app, run_quoted, app_nil_r.
    exists QUOTE_IN_QUOTED_FIELD. split; [reflexivity|tauto].
Qed.

Lemma end_field_text s st st' fs ls :
  end_field st (Tokenizer st' (rev (list_ascii_of_string s)) fs ls)
  = Tokenizer st [] (s :: fs) ls.
Proof.
  unfold end_field. cbn [field fields lines].
  by rewrite rev_involutive, string_of_list_ascii_of_string.
Qed.

Lemma run_field_comma s st fs ls :
  st = START_FIELD ∨ st = START_RECORD →
  run (Tokenizer st [] fs ls) (write_field s ++ [comma])
  = Tokenizer START_FIELD [] (s :: fs) ls.
Proof.
  intros Hst. rewrite run_app.
  destruct (run_write_field s st fs ls Hst) as (st' & -> & Hst').
  rewrite run_cons. change (run ?t []) with t.
  rewrite comma_after, end_field_text; [done|].
  unfold awaits. cbn [state]. tauto.
Qed.

Lemma run_field_LF s fs ls :
  run (Tokenizer START_FIELD [] fs ls) (write_field s ++ [LF])
  = Tokenizer START_RECORD [] [] (rev (s :: fs) :: ls).
Proof.
  rewrite run_app.
  destruct (run_write_field s START_FIELD fs ls) as (st' & -> & Hst'); [by left|].
  rewrite run_cons. change (run ?t []) with t.
  rewrite LF_after, end_field_text; [done|].
  unfold awaits. cbn [state]. destruct Hst' as [?|[?|[?|[? _]]]]; try tauto. done.
Qed.

Lemma join_fields_cons (f : list ascii) (s : string) (rest : list string) :
  join_fields (f :: (write_field <$> s :: rest))
  = f ++ [comma] ++ join_fields (write_field <$> s :: rest).
Proof. reflexivity. Qed.

Lemma run_fields_LF s rest fs ls :
  run (Tokenizer START_FIELD [] fs ls)
      (join_fields (write_field <$> s :: rest) ++ [LF])
  = Tokenizer START_RECORD [] [] (rev (rev (s :: rest) ++ fs) :: ls).
Proof.
  revert s fs. induction rest as [|s' rest IH]; intros s fs.
  - apply run_field_LF.
  - rewrite fmap_cons, join_fields_cons.
    rewrite <-!app_assoc, (app_assoc (write_field s) [comma]), run_app.
    rewrite run_field_comma by (by left). rewrite IH.
    do 3 f_equal. simpl. by rewrite <-!app_assoc.
Qed.

Lemma write_row_fields s1 s2 rest :
  write_row (s1 :: s2 :: rest)
  = (write_field s1 ++ [comma])
    ++ join_fields (write_field <$> s2 :: rest) ++ [LF].
Proof.
  unfold write_row. rewrite fmap_cons, join_fields_cons.
  destruct (write_field s1 ++ [comma] ++ _) as [|c line] eqn:E.
  - by destruct (write_field s1).
  - rewrite <-E. by rewrite <-!app_assoc.
Qed.

Lemma run_write_row fs ls :
  (2 ≤ length fs)%nat →
  run (Tokenizer START_RECORD [] [] ls) (write_row fs)
  = Tokenizer START_RECORD [] [] (fs :: ls).
Proof.
  destruct fs as [|s1 [|s2 rest]]; simpl; [lia..|]. intros _.
  rewrite write_row_fields, run_app, run_field_comma by (by right).
  rewrite run_fields_LF. do 2 f_equal.
  rewrite rev_app_distr, rev_involutive. reflexivity.
Qed.

Lemma run_write_rows (rs : list (list string)) ls :
  Forall (fun fs => 2 ≤ length fs)%nat rs →
  run (Tokenizer START_RECORD [] [] ls) (rs ≫= write_row)
  = Tokenizer START_RECORD [] [] (rev rs ++ ls).
Proof.
  intros Hrs. revert ls. induction Hrs as [|fs rs Hfs _ IH]; intros ls; [done|].
  rewrite bind_cons, run_app, run_write_row, IH by done.
  simpl. by rewrite <-app_assoc.
Qed.

Lemma tokenize_written (hdr : list string) (rs : list (list string)) :
  (2 ≤ length hdr)%nat → Forall (fun fs => 2 ≤ length fs)%nat rs →
  tokenize (string_of_list_ascii (write_row hdr ++ (rs ≫= write_row)))
  = Ok (hdr :: rs).
Proof.
  intros Hhdr Hrs. unfold tokenize.
  rewrite list_ascii_of_string_of_list_ascii.
  fold (run (Tokenizer START_RECORD [] [] [])
            (write_row hdr ++ (rs ≫= write_row))).
  rewrite run_app, run_write_row, run_write_rows by done.
  unfold handle_eof. cbn [state lines].
  by rewrite rev_app_distr, rev_involutive.
Qed.

Lemma to_csv_rows df :
  to_csv df
  = string_of_list_ascii
      (write_row (columns df)
       ++ (((fun row : list cell => cell_text <$> row) <$> rows df) ≫= write_row)).
Proof.
  unfold to_csv. do 2 f_equal.
  induction (rows df) as [|r rs IH]; [done|].
  by rewrite fmap_cons, !bind_cons, IH.
Qed.

Lemma pad_lines_exact n (ls : list (list string)) :
  Forall (fun l => length l = n) ls → pad_lines n ls = Ok ls.
Proof.
  induction 1 as [|l ls Hl _ IH]; [done|].
  cbn [pad_lines]. unfold pad_line. rewrite decide_False by lia.
  rewrite Hl, Nat.sub_diag. cbn [replicate mbind result_bind].
  by rewrite app_nil_r, IH.
Qed.

Lemma read_table_to_csv df :
  (2 ≤ length (columns df))%nat →
  Forall (fun row => length row = length (columns df)) (rows df) →
  read_table (to_csv df)
  = Ok (mkDataFrame (columns df) ((fun row : list cell => reparse <$> row) <$> rows df)).
Proof.
  intros Hcols Hrows. unfold read_table.
  rewrite to_csv_rows, tokenize_written; [|done|].
  2:{ apply Forall_fmap. eapply Forall_impl; [exact Hrows|].
      intros row Hrow. simpl in *. rewrite length_fmap. lia. }
  cbn [mbind result_bind].
  assert (Forall (fun l : list string => length l = length (columns df))
            ((fun row : list cell => cell_text <$> row) <$> rows df)) as Hdata.
  { apply Forall_fmap. eapply Forall_impl; [exact Hrows|].
    intros row Hrow. simpl in *. by rewrite length_fmap. }
  assert (match (fun row : list cell => cell_text <$> row) <$> rows df with
          | [] => length (columns df)
          | first :: _ => length first `max` length (columns df)
          end = length (columns df)) as ->.
  { destruct Hdata as [|l ? Hl _]; [done|]. rewrite Hl. lia. }
  rewrite pad_lines_exact by done. cbn [mbind result_bind].
  rewrite Nat.sub_diag. f_equal. f_equal.
  rewrite <-list_fmap_compose. apply list_fmap_ext. intros _ row _. simpl.
  rewrite drop_0. by rewrite <-list_fmap_compose.
Qed.

Lemma parse_cell_ordinary s : ordinary s = true → parse_cell s = Str s.
Proof.
  unfold ordinary, parse_cell.
  intros [[Hna%negb_true_iff _]%andb_true_iff _]%andb_true_iff.
  apply bool_decide_eq_false in Hna. by rewrite decide_False.
Qed.

End CsvFacts.

Import CsvText CsvFacts.

Section baseline_report.

Lemma read_csv_upload csv_bytes :
  read_csv (baseline_upload csv_bytes) = Csv.read_table csv_bytes.
Proof.
  unfold read_csv, baseline_upload. cbn [read mbind result_bind].
  by rewrite string_of_list_byte_of_string.
Qed.

Lemma read_table_frame (l : list (string * string)) :
  Csv.read_table (Csv.to_csv (frame_of l))
  = Ok (mkDataFrame ["filename"; "sha256"]
          ((fun p => [Csv.parse_cell p.1; Csv.parse_cell p.2]) <$> l)).
Proof.
  rewrite read_table_to_csv.
  - unfold frame_of, table_of. cbn [columns rows]. do 2 f_equal.
    rewrite <-!list_fmap_compose. apply list_fmap_ext. by intros _ [n d] _.
  - cbn. lia.
  - unfold frame_of, table_of. cbn [columns rows].
    rewrite <-list_fmap_compose. apply Forall_fmap, Forall_forall. by intros [n d] _.
Qed.

Lemma read_csv_ordinary (l : list (string * string)) :
  Forall (fun p => ordinary p.1 = true ∧ ordinary p.2 = true) l →
  read_csv (baseline_upload (Csv.to_csv (frame_of l))) = Ok (frame_of l).
Proof.
  intros Hl. rewrite read_csv_upload, read_table_frame.
  unfold frame_of, table_of. do 2 f_equal. rewrite <-list_fmap_compose.
  apply list_fmap_ext. intros _ [n d] Hin%list_elem_of_lookup_2.
  eapply Forall_forall in Hl as [Hn Hd]; [|exact Hin]. cbn [fst snd] in *.
  cbn. by rewrite (parse_cell_ordinary n), (parse_cell_ordinary d).
Qed.

End baseline_report.

(** X10. The baseline report of a fingerprint set, read again, has the
    two columns and one row per entry with the same digest; the name is
    the same, unless it is one of the missing-value markers, and then it
    comes back as a missing value. *)
Theorem baseline_report_read_back (l : list (string * string)) :
  Forall (fun p => (p.1 ∈ Csv.na_values ∨ ordinary p.1 = true)
                   ∧ ordinary p.2 = true) l →
  read_csv (baseline_upload (Csv.to_csv (frame_of l)))
  = Ok (mkDataFrame ["filename"; "sha256"]
          ((fun p => [if decide (p.1 ∈ Csv.na_values) then NaN else Str p.1;
                      Str p.2]) <$> l)).
Proof.
  intros Hl. rewrite read_csv_upload, read_table_frame. do 2 f_equal.
  apply list_fmap_ext. intros _ [n d] Hin%list_elem_of_lookup_2.
  eapply Forall_forall in Hl as [_ Hd]; [|exact Hin]. cbn [fst snd] in *.
  by rewrite (parse_cell_ordinary d).
Qed.

Lemma baseline_report_read_back_witness :
  let l := [("NA", "d1"); ("a.txt", "d2"); ("null", "d3")] in
  Forall (fun p => (p.1 ∈ Csv.na_values ∨ ordinary p.1 = true)
                   ∧ ordinary p.2 = true) l
  ∧ read_csv (baseline_upload (Csv.to_csv (frame_of l)))
    = Ok (mkDataFrame ["filename"; "sha256"]
            [ [NaN; Str "d1"]; [Str "a.txt"; Str "d2"]; [NaN; Str "d3"] ]).
Proof.
  intros l.
  assert (Forall (fun p => (p.1 ∈ Csv.na_values ∨ ordinary p.1 = true)
                           ∧ ordinary p.2 = true) l) as Hl.
  { constructor; [split; [left; by_evaluation|reflexivity]|].
    constructor; [split; [right; reflexivity|reflexivity]|].
    constructor; [split; [left; by_evaluation|reflexivity]|]. constructor. }
  split; [exact Hl|]. exact (baseline_report_read_back l Hl).
Defined.

(** X11. The baseline report of a fingerprint set with ordinary names
    and digests is read back as the frame it was written from. *)
Theorem baseline_report_round_trip (l : list (string * string)) :
  Forall (fun p => ordinary p.1 = true ∧ ordinary p.2 = true) l →
  read_csv (baseline_upload (Csv.to_csv (frame_of l))) = Ok (frame_of l).
Proof. apply read_csv_ordinary. Qed.

Lemma baseline_report_round_trip_witness :
  let l := [("a.txt", "d1"); ("b,1.txt", "d2")] in
  Forall (fun p => ordinary p.1 = true ∧ ordinary p.2 = true) l
  ∧ read_csv (baseline_upload (Csv.to_csv (frame_of l))) = Ok (frame_of l).
Proof.
  intros l.
  assert (Forall (fun p => ordinary p.1 = true ∧ ordinary p.2 = true) l) as Hl
    by (repeat constructor).
  split; [exact Hl|]. exact (baseline_report_round_trip l Hl).
Defined.

Section generated_baseline.









End generated_baseline.

Section generate_then_compare.



End generate_then_compare.




